(** * ycbcr.py: generator of 16.16 fixed point RGB <-> YCbCr formulas

    Shallow embedding of [src/ycbcr.py] and verification of its
    specification.

    Numbers.  The script computes with Python floats; the embedding
    computes with exact rationals ([Q], compared with [==]).  Every
    statement below is a statement about that exact reading of the
    script: float rounding error is outside the model.  One float effect
    changes how a run ends and is added where the error path is studied
    ([run_checked]): a coefficient beyond the float range is an infinity,
    on which [int] raises.

    Effects.  The script is a straight line of statements that either
    raise (a division by zero while the matrix literal is evaluated, a
    singular matrix inside [linalg.inv]) or print a line.  It is embedded
    in a small monad [Py] that threads the text written to standard
    output and stops at the first exception, keeping what was printed
    before it. *)

From Stdlib Require Import ZArith QArith Qround Qabs Qfield Lia Lqa List String Ascii Bool.
From Stdlib Require Import DecimalString DecimalZ Setoid Morphisms.
Import ListNotations.

Local Open Scope Q_scope.

(** ** Exceptions and the output monad *)

Inductive exn : Type :=
| ZeroDivisionError
| LinAlgError
| IndexError
| TypeError
| OverflowError.

(** A pure step that may raise. *)
Definition result (A : Type) : Type := (exn + A)%type.

Definition rbind {A B : Type} (c : result A) (k : A -> result B) : result B :=
  match c with
  | inl e => inl e
  | inr a => k a
  end.

(** A statement: from the text printed so far to the text printed after
    it, with the value it produced or the exception that stopped it. *)
Definition Py (A : Type) : Type := string -> string * result A.

Definition ret {A : Type} (a : A) : Py A := fun out => (out, inr a).

Definition bind {A B : Type} (c : Py A) (k : A -> Py B) : Py B :=
  fun out =>
    match c out with
    | (out', inl e) => (out', inl e)
    | (out', inr a) => k a out'
    end.

Definition lift {A : Type} (c : result A) : Py A := fun out => (out, c).

Declare Scope py_scope.
Delimit Scope py_scope with py.
Notation "x <- c ;; k" := (bind c (fun x => k))
  (at level 61, c at next level, right associativity) : py_scope.
Notation "c ;; k" := (bind c (fun _ => k))
  (at level 61, right associativity) : py_scope.

Declare Scope result_scope.
Delimit Scope result_scope with res.
Notation "x <- c ;; k" := (rbind c (fun x => k))
  (at level 61, c at next level, right associativity) : result_scope.

(** [print(s)]: the line and a newline go to standard output. *)
Definition newline : string := String (ascii_of_nat 10) EmptyString.

Definition print (s : string) : Py unit :=
  fun out => ((out ++ s ++ newline)%string, inr tt).

(** ** Python and numpy primitives over the rationals *)

(** [x / y] under [from __future__ import division]. *)
Definition truediv (x y : Q) : result Q :=
  if Qeq_bool y 0 then inl ZeroDivisionError else inr (x / y).

(** Round half to even, the rounding of [numpy.round]. *)
Definition round_half_even (q : Q) : Z :=
  let f := Qfloor q in
  match Qcompare (q - inject_Z f) (1 # 2) with
  | Lt => f
  | Gt => (f + 1)%Z
  | Eq => if Z.even f then f else (f + 1)%Z
  end.

(** [matrix.round()] keeps float entries: the rounded value, as a number
    of the matrix' element type. *)
Definition np_round (q : Q) : Q := inject_Z (round_half_even q).

(** [int(x)]: truncation toward zero. *)
Definition py_int (q : Q) : Z := Z.quot (Qnum q) (Z.pos (Qden q)).

(** [%d] of an integer: base 10, with a minus sign when negative. *)
Definition str_of_int (z : Z) : string := NilZero.string_of_int (Z.to_int z).

(** [fmt % args] for format strings whose only conversion is [%d]. *)
Fixpoint pct_format (fmt : string) (args : list Z) : result string :=
  match fmt with
  | EmptyString =>
      match args with
      | [] => inr EmptyString
      | _ :: _ => inl TypeError
      end
  | String "%" (String "d" rest) =>
      match args with
      | [] => inl TypeError
      | z :: args' =>
          (s <- pct_format rest args' ;; inr (str_of_int z ++ s)%string)%res
      end
  | String c rest =>
      (s <- pct_format rest args ;; inr (String c s))%res
  end.

(** ** Matrices *)

Abbreviation row := (list Q) (only parsing).
Abbreviation matrix := (list (list Q)) (only parsing).

Definition det3 (a b c d e f g h i : Q) : Q :=
  a * (e * i - f * h) - b * (d * i - f * g) + c * (d * h - e * g).

(** [numpy.linalg.inv] on a 3x3 matrix: the inverse, or [LinAlgError]
    when the matrix is singular (or not square).  The inverse is given
    by cofactors; over exact numbers every inversion method returns the
    same matrix. *)
Definition inv (M : matrix) : result matrix :=
  match M with
  | [[a; b; c]; [d; e; f]; [g; h; i]] =>
      let D := det3 a b c d e f g h i in
      if Qeq_bool D 0 then inl LinAlgError
      else inr [[(e * i - f * h) / D; (c * h - b * i) / D; (b * f - c * e) / D];
                [(f * g - d * i) / D; (a * i - c * g) / D; (c * d - a * f) / D];
                [(d * h - e * g) / D; (b * g - a * h) / D; (a * e - b * d) / D]]
  | _ => inl LinAlgError
  end.

Definition scale_row (k : Q) (r : row) : row := map (fun x => x * k) r.

(** [M[0] *= k] *)
Definition imul_row0 (k : Q) (M : matrix) : result matrix :=
  match M with
  | [] => inl IndexError
  | r :: rest => inr (scale_row k r :: rest)
  end.

(** [M[1:] *= k] (an empty slice is left alone). *)
Definition imul_rows_from1 (k : Q) (M : matrix) : matrix :=
  match M with
  | [] => []
  | r :: rest => r :: map (scale_row k) rest
  end.

(** [M.round().tolist()] *)
Definition round_tolist (M : matrix) : list (list Q) := map (map np_round) M.

(** [L[i].insert(0, v)] *)
Fixpoint insert0_at (i : nat) (v : Q) (L : list (list Q)) : result (list (list Q)) :=
  match L, i with
  | [], _ => inl IndexError
  | r :: rest, O => inr ((v :: r) :: rest)
  | r :: rest, S j => (rest' <- insert0_at j v rest ;; inr (r :: rest'))%res
  end.

(** [for i in range(lo, lo + n): L[i].insert(0, v)] *)
Fixpoint insert0_range (lo n : nat) (v : Q) (L : list (list Q)) : result (list (list Q)) :=
  match n with
  | O => inr L
  | S n' => (L' <- insert0_at lo v L ;; insert0_range (S lo) n' v L')%res
  end.

(** [L[i]] *)
Definition getitem {A : Type} (L : list A) (i : nat) : result A :=
  match nth_error L i with
  | Some x => inr x
  | None => inl IndexError
  end.

(** [fmt % tuple(map(int, L[i]))] *)
Definition format_row (fmt : string) (L : list (list Q)) (i : nat) : result string :=
  (r <- getitem L i ;; pct_format fmt (map py_int r))%res.

(** ** The script *)

Definition fmt_rgb : string := "(%d + %d*r + %d*g + %d*b)>>16".
Definition fmt_ycc : string := "(%d + %d*y + %d*cb + %d*cr)>>16".

(** Lines 22-26: the matrix literal.  Rows are evaluated in order, so a
    zero [1 - kb] raises before [1 - kr] is looked at. *)
Definition build_A (kb kr : Q) : result matrix :=
  (a10 <- truediv ((1 # 2) * (- kr)) (1 - kb) ;;
   a11 <- truediv ((1 # 2) * (- (1 - kr - kb))) (1 - kb) ;;
   a12 <- truediv ((1 # 2) * (1 - kb)) (1 - kb) ;;
   a20 <- truediv ((1 # 2) * (1 - kr)) (1 - kr) ;;
   a21 <- truediv ((1 # 2) * (- (1 - kr - kb))) (1 - kr) ;;
   a22 <- truediv ((1 # 2) * (- kb)) (1 - kr) ;;
   inr [[kr; 1 - kr - kb; kb]; [a10; a11; a12]; [a20; a21; a22]])%res.

(** Lines 30-35: scale, round, prepend the biases. *)
Definition forward_table (A : matrix) : result (list (list Q)) :=
  (A <- imul_row0 (inject_Z (65536 * 219) / 255) A ;;
   let A := imul_rows_from1 (inject_Z (65536 * 224) / 255) A in
   let A := round_tolist A in
   A <- insert0_at 0 (inject_Z (16 * 65536 + 32768)) A ;;
   insert0_range 1 2 (inject_Z (128 * 65536 + 32768)) A)%res.

(** Lines 42-46. *)
Definition inverse_table (B : matrix) : result (list (list Q)) :=
  (B <- imul_row0 (inject_Z (65536 * 255) / 219) B ;;
   let B := imul_rows_from1 (inject_Z (65536 * 255) / 224) B in
   let B := round_tolist B in
   insert0_range 0 3 (inject_Z 32768) B)%res.

Definition print_row (fmt : string) (L : list (list Q)) (i : nat) : Py unit :=
  (s <- lift (format_row fmt L i) ;; print s)%py.

Definition script (kb kr : Q) : Py unit :=
  (A <- lift (build_A kb kr) ;;
   B <- lift (inv A) ;;
   A <- lift (forward_table A) ;;
   print "" ;;
   print "RGB to YCbCr:" ;;
   print_row fmt_rgb A 0 ;;
   print_row fmt_rgb A 1 ;;
   print_row fmt_rgb A 2 ;;
   B <- lift (inverse_table B) ;;
   print "" ;;
   print "YCbCr to RGB:" ;;
   print "y -= 16" ;;
   print "cb -= 128" ;;
   print "cr -= 128" ;;
   print_row fmt_ycc B 0 ;;
   print_row fmt_ycc B 1 ;;
   print_row fmt_ycc B 2)%py.

(** A run starts with nothing printed. *)
Definition run (kb kr : Q) : string * result unit := script kb kr EmptyString.

(** The weights the script is shipped with, and the commented-out pair. *)
Definition bt709_kb : Q := 722 # 10000.
Definition bt709_kr : Q := 2126 # 10000.
Definition bt601_kb : Q := 114 # 1000.
Definition bt601_kr : Q := 299 # 1000.

(** ** What the printed text denotes *)

(** The integer tables the script formats: a forward table and an inverse
    table, each of three rows [bias; c0; c1; c2], as they reach [%d]. *)
Definition printed_tables (kb kr : Q) : result (list (list Z) * list (list Z)) :=
  (A <- build_A kb kr ;;
   B <- inv A ;;
   A <- forward_table A ;;
   B <- inverse_table B ;;
   inr (map (map py_int) A, map (map py_int) B))%res.

(** One emitted expression [(bias + c0*x0 + c1*x1 + c2*x2)>>16] on integers
    ([>>] is the arithmetic shift). *)
Definition eval_row (c : list Z) (x0 x1 x2 : Z) : Z :=
  match c with
  | [bias; c0; c1; c2] => Z.shiftr (bias + c0 * x0 + c1 * x1 + c2 * x2) 16
  | _ => 0%Z
  end.

Definition eval_rows (M : list (list Z)) (x : Z * Z * Z) : Z * Z * Z :=
  let '(x0, x1, x2) := x in
  (eval_row (nth 0 M []) x0 x1 x2,
   eval_row (nth 1 M []) x0 x1 x2,
   eval_row (nth 2 M []) x0 x1 x2).

(** The block printed under [RGB to YCbCr:]. *)
Definition rgb_to_ycbcr (M : list (list Z)) (rgb : Z * Z * Z) : Z * Z * Z :=
  eval_rows M rgb.

(** The block printed under [YCbCr to RGB:], with its three subtractions. *)
Definition ycbcr_to_rgb (N : list (list Z)) (ycc : Z * Z * Z) : Z * Z * Z :=
  let '(y, cb, cr) := ycc in
  let y := (y - 16)%Z in
  let cb := (cb - 128)%Z in
  let cr := (cr - 128)%Z in
  eval_rows N (y, cb, cr).

Definition round_trip (kb kr : Q) (rgb : Z * Z * Z) : result (Z * Z * Z) :=
  (T <- printed_tables kb kr ;;
   inr (ycbcr_to_rgb (snd T) (rgb_to_ycbcr (fst T) rgb)))%res.

Definition in_byte (x : Z) : Prop := (0 <= x <= 255)%Z.

Definition within (tol : Z) (x y : Z * Z * Z) : Prop :=
  let '(x0, x1, x2) := x in
  let '(y0, y1, y2) := y in
  (Z.abs (x0 - y0) <= tol /\ Z.abs (x1 - y1) <= tol /\ Z.abs (x2 - y2) <= tol)%Z.

(** The weight pairs the specification calls valid. *)
Definition valid (kb kr : Q) : Prop := 0 < kb /\ 0 < kr /\ kb + kr < 1.

(** The output layout of the specification, with the twenty-four
    placeholders filled from a forward table [M] and an inverse table [N]. *)
Definition expr_line (x0 x1 x2 : string) (c : list Z) : string :=
  match c with
  | [bias; c0; c1; c2] =>
      ("(" ++ str_of_int bias ++ " + " ++ str_of_int c0 ++ "*" ++ x0 ++
       " + " ++ str_of_int c1 ++ "*" ++ x1 ++
       " + " ++ str_of_int c2 ++ "*" ++ x2 ++ ")>>16")%string
  | _ => EmptyString
  end.

Definition spec_lines (M N : list (list Z)) : list string :=
  [""; "RGB to YCbCr:"]%string
  ++ map (expr_line "r" "g" "b") M
  ++ [""; "YCbCr to RGB:"; "y -= 16"; "cb -= 128"; "cr -= 128"]%string
  ++ map (expr_line "y" "cb" "cr") N.

Definition spec_output (M N : list (list Z)) : string :=
  fold_right (fun l acc => (l ++ newline ++ acc)%string) EmptyString (spec_lines M N).

(** A string is a base-10 signed integer: an optional minus sign, then one
    or more decimal digits. *)
Definition is_digit (c : ascii) : bool :=
  let n := nat_of_ascii c in (48 <=? n)%nat && (n <=? 57)%nat.

Fixpoint all_digits (s : string) : bool :=
  match s with
  | EmptyString => true
  | String c s' => is_digit c && all_digits s'
  end.

Definition is_base10 (s : string) : bool :=
  match s with
  | EmptyString => false
  | String "-" (String c s') => all_digits (String c s')
  | String c s' => all_digits (String c s')
  end.

(** Reading a base-10 signed integer back. *)
Definition int_of_str (s : string) : option Z :=
  option_map Z.of_int (NilZero.int_of_string s).

(** ** The forward matrix as the specification writes it *)

Definition A_spec (kb kr : Q) : matrix :=
  [[kr; 1 - kr - kb; kb];
   [- (1 # 2) * kr / (1 - kb); - (1 # 2) * (1 - kr - kb) / (1 - kb); 1 # 2];
   [1 # 2; - (1 # 2) * (1 - kr - kb) / (1 - kr); - (1 # 2) * kb / (1 - kr)]].

(** Entrywise equality of rational matrices. *)
Definition mat_eq (X Y : matrix) : Prop := Forall2 (Forall2 Qeq) X Y.

Definition dot (r c : list Q) : Q :=
  fold_right Qplus 0 (map (fun p => fst p * snd p) (combine r c)).

Definition column (j : nat) (M : matrix) : list Q := map (fun r => nth j r 0) M.

Definition mat_mul (X Y : matrix) : matrix :=
  map (fun r => map (fun j => dot r (column j Y)) (seq 0 (List.length (hd [] Y)))) X.

Definition identity3 : matrix := [[1; 0; 0]; [0; 1; 0]; [0; 0; 1]].

Definition row_sum (r : list Q) : Q := fold_right Qplus 0 r.

(** [z] is an integer nearest to [q]. *)
Definition nearest (q : Q) (z : Z) : Prop := Qabs (q - inject_Z z) <= 1 # 2.

(** ** Normal forms of the script steps *)

(** The scale factors of lines 30, 31, 42 and 43. *)
Definition fwd_luma_gain : Q := inject_Z (65536 * 219) / 255.
Definition fwd_chroma_gain : Q := inject_Z (65536 * 224) / 255.
Definition inv_row0_gain : Q := inject_Z (65536 * 255) / 219.
Definition inv_rows12_gain : Q := inject_Z (65536 * 255) / 224.

(** The value of the matrix literal when no division raises. *)
Definition A_code (kb kr : Q) : matrix :=
  [[kr; 1 - kr - kb; kb];
   [(1 # 2) * (- kr) / (1 - kb);
    (1 # 2) * (- (1 - kr - kb)) / (1 - kb);
    (1 # 2) * (1 - kb) / (1 - kb)];
   [(1 # 2) * (1 - kr) / (1 - kr);
    (1 # 2) * (- (1 - kr - kb)) / (1 - kr);
    (1 # 2) * (- kb) / (1 - kr)]].

(** The inverse in closed form. *)
Definition B_closed (kb kr : Q) : matrix :=
  [[1; 0; 2 * (1 - kr)];
   [1; - (2 * kb * (1 - kb)) / (1 - kr - kb); - (2 * kr * (1 - kr)) / (1 - kr - kb)];
   [1; 2 * (1 - kb); 0]].

(** The integer table the script derives from a three-row matrix: a bias
    in front of every row, then the row scaled and rounded. *)
Definition scaled_ints (k : Q) (r : row) : list Z :=
  map (fun x => round_half_even (x * k)) r.

Definition table_of (b0 b1 b2 : Z) (k0 k12 : Q) (X : matrix) : list (list Z) :=
  match X with
  | [r0; r1; r2] =>
      [b0 :: scaled_ints k0 r0; b1 :: scaled_ints k12 r1; b2 :: scaled_ints k12 r2]
  | _ => []
  end.

Definition fwd_ints (A : matrix) : list (list Z) :=
  table_of 1081344 8421376 8421376 fwd_luma_gain fwd_chroma_gain A.

Definition inv_ints (B : matrix) : list (list Z) :=
  table_of 32768 32768 32768 inv_row0_gain inv_rows12_gain B.

(** What the script needs to run to its end: no zero denominator in the
    matrix literal and a green weight different from zero. *)
Definition regular (kb kr : Q) : Prop :=
  ~ 1 - kb == 0 /\ ~ 1 - kr == 0 /\ ~ 1 - kr - kb == 0.

Definition mat_close (tol : Q) (X Y : matrix) : Prop :=
  Forall2 (Forall2 (fun x y => Qabs (x - y) <= tol)) X Y.

(** A row of printed coefficients is the row of the matrix scaled by
    [gain], every entry rounded (half to even) to a nearest integer. *)
Definition rounded_row (gain : Q) (r : row) (l : list Z) : Prop :=
  Forall2 (fun x n => n = round_half_even (x * gain) /\ nearest (x * gain) n) r l.

(** A forward table read with red and blue exchanged: the coefficients of
    r and b trade places in every row and the Cb and Cr rows trade places. *)
Definition swap_red_blue (M : list (list Z)) : list (list Z) :=
  match M with
  | [[b0; m0; m1; m2]; [b1; c0; c1; c2]; [b2; d0; d1; d2]] =>
      [[b0; m2; m1; m0]; [b2; d2; d1; d0]; [b1; c2; c1; c0]]
  | _ => M
  end.

(** The characters a [%d] conversion can produce: digits and the minus
    sign. *)
Definition is_num_char (c : ascii) : bool := is_digit c || Ascii.eqb c "-".

Fixpoint all_num_chars (s : string) : bool :=
  match s with
  | EmptyString => true
  | String c s' => is_num_char c && all_num_chars s'
  end.

(** ** The prints within the float range

    The numbers of the script are Python floats, finite only up to
    [float_max].  A scaled coefficient beyond it is [inf] in the script,
    [round] keeps it, and [int(inf)] at the formatted print raises
    [OverflowError].  The definitions below repeat the script with that
    check in [int], every value being computed as above, and take the
    inversion routine of line 27 as a parameter: whatever [linalg.inv]
    returns or raises, the statements around it are those of the script. *)

Definition float_max : Q := inject_Z (2 ^ 1024 - 2 ^ 971).

(** [int(x)] on a float: [OverflowError] on an infinity. *)
Definition py_int_checked (q : Q) : result Z :=
  if Qle_bool (Qabs q) float_max then inr (py_int q) else inl OverflowError.

(** [map(f, l)] consumed from left to right, stopping at the first
    exception. *)
Fixpoint map_result {A B : Type} (f : A -> result B) (l : list A) : result (list B) :=
  match l with
  | [] => inr []
  | x :: l' => (y <- f x ;; ys <- map_result f l' ;; inr (y :: ys))%res
  end.

(** [fmt % tuple(map(int, L[i]))] *)
Definition format_row_checked (fmt : string) (L : list (list Q)) (i : nat)
  : result string :=
  (r <- getitem L i ;; args <- map_result py_int_checked r ;; pct_format fmt args)%res.

Definition print_row_checked (fmt : string) (L : list (list Q)) (i : nat) : Py unit :=
  (s <- lift (format_row_checked fmt L i) ;; print s)%py.

Definition script_checked (linv : list (list Q) -> result (list (list Q)))
  (kb kr : Q) : Py unit :=
  (A <- lift (build_A kb kr) ;;
   B <- lift (linv A) ;;
   A <- lift (forward_table A) ;;
   print "" ;;
   print "RGB to YCbCr:" ;;
   print_row_checked fmt_rgb A 0 ;;
   print_row_checked fmt_rgb A 1 ;;
   print_row_checked fmt_rgb A 2 ;;
   B <- lift (inverse_table B) ;;
   print "" ;;
   print "YCbCr to RGB:" ;;
   print "y -= 16" ;;
   print "cb -= 128" ;;
   print "cr -= 128" ;;
   print_row_checked fmt_ycc B 0 ;;
   print_row_checked fmt_ycc B 1 ;;
   print_row_checked fmt_ycc B 2)%py.

Definition run_checked (linv : list (list Q) -> result (list (list Q)))
  (kb kr : Q) : string * result unit :=
  script_checked linv kb kr EmptyString.

(** * Lemmas *)

(** ** Rounding and conversion *)

Lemma round_half_even_nearest (q : Q) : nearest q (round_half_even q).
Proof.
  unfold nearest, round_half_even.
  pose proof (Qfloor_le q) as Hlo.
  pose proof (Qlt_floor q) as Hhi.
  rewrite inject_Z_plus in Hhi. change (inject_Z 1) with 1 in Hhi.
  generalize dependent (Qfloor q). intros f Hlo Hhi.
  apply Qabs_Qle_condition.
  destruct (Qcompare_spec (q - inject_Z f) (1 # 2)) as [He | Hl | Hg].
  - destruct (Z.even f);
      [| rewrite inject_Z_plus; change (inject_Z 1) with 1]; split; lra.
  - split; lra.
  - rewrite inject_Z_plus; change (inject_Z 1) with 1; split; lra.
Qed.

#[export] Instance round_half_even_comp : Proper (Qeq ==> eq) round_half_even.
Proof.
  intros x y Hxy. unfold round_half_even.
  rewrite (Qfloor_comp x y Hxy).
  assert (Hc : Qcompare (x - inject_Z (Qfloor y)) (1 # 2)
               = Qcompare (y - inject_Z (Qfloor y)) (1 # 2))
    by (rewrite Hxy; reflexivity).
  rewrite Hc. reflexivity.
Qed.

Lemma py_int_inject_Z (z : Z) : py_int (inject_Z z) = z.
Proof. unfold py_int. cbn [inject_Z Qnum Qden]. apply Z.quot_1_r. Qed.

Lemma py_int_np_round (q : Q) : py_int (np_round q) = round_half_even q.
Proof. apply py_int_inject_Z. Qed.

Lemma rounded_bounds (q : Q) :
  q - (1 # 2) <= inject_Z (round_half_even q) /\
  inject_Z (round_half_even q) <= q + (1 # 2).
Proof.
  pose proof (round_half_even_nearest q) as H. unfold nearest in H.
  apply Qabs_Qle_condition in H. split; lra.
Qed.

Lemma Qlt_inject_Z_bounds (lo hi z : Z) :
  inject_Z lo - 1 < inject_Z z -> inject_Z z < inject_Z hi + 1 ->
  (lo <= z <= hi)%Z.
Proof.
  intros Hlo Hhi.
  assert (H1 : (lo - 1 < z)%Z).
  { rewrite Zlt_Qlt. unfold Z.sub. rewrite inject_Z_plus, inject_Z_opp.
    change (inject_Z 1) with 1. lra. }
  assert (H2 : (z < hi + 1)%Z).
  { rewrite Zlt_Qlt, inject_Z_plus. change (inject_Z 1) with 1. lra. }
  lia.
Qed.

(** The sum of three rounded products stays within 3/2 of the product of
    the sum. *)
Lemma sum3_rounded (x0 x1 x2 g : Q) :
  let s := (round_half_even (x0 * g) + round_half_even (x1 * g)
            + round_half_even (x2 * g))%Z in
  (x0 + x1 + x2) * g - (3 # 2) <= inject_Z s /\
  inject_Z s <= (x0 + x1 + x2) * g + (3 # 2).
Proof.
  cbv zeta. rewrite !inject_Z_plus.
  destruct (rounded_bounds (x0 * g)), (rounded_bounds (x1 * g)), (rounded_bounds (x2 * g)).
  split; lra.
Qed.

(** Three rounded products whose factors sum to zero sum to -1, 0 or 1. *)
Lemma sum3_rounded_zero (x0 x1 x2 g : Q) :
  x0 + x1 + x2 == 0 ->
  (-1 <= round_half_even (x0 * g) + round_half_even (x1 * g)
         + round_half_even (x2 * g) <= 1)%Z.
Proof.
  intros H0.
  destruct (sum3_rounded x0 x1 x2 g) as [Hlo Hhi]. cbv zeta in Hlo, Hhi.
  remember (round_half_even (x0 * g) + round_half_even (x1 * g)
            + round_half_even (x2 * g))%Z as s eqn:Es.
  clear Es. rewrite H0 in Hlo, Hhi.
  apply Qlt_inject_Z_bounds;
    [change (inject_Z (-1)) with (-1) | change (inject_Z 1) with 1]; lra.
Qed.

Lemma fwd_luma_gain_value : fwd_luma_gain == 14352384 # 255.
Proof. reflexivity. Qed.

(** Three rounded products whose factors sum to one, at the luma gain. *)
Lemma sum3_rounded_luma (x0 x1 x2 : Q) :
  x0 + x1 + x2 == 1 ->
  (56283 <= round_half_even (x0 * fwd_luma_gain) + round_half_even (x1 * fwd_luma_gain)
            + round_half_even (x2 * fwd_luma_gain) <= 56285)%Z.
Proof.
  intros H1.
  destruct (sum3_rounded x0 x1 x2 fwd_luma_gain) as [Hlo Hhi]. cbv zeta in Hlo, Hhi.
  pose proof fwd_luma_gain_value as Hg.
  remember (round_half_even (x0 * fwd_luma_gain) + round_half_even (x1 * fwd_luma_gain)
            + round_half_even (x2 * fwd_luma_gain))%Z as s eqn:Es.
  clear Es. revert Hlo Hhi Hg. generalize fwd_luma_gain. intros g Hlo Hhi Hg.
  rewrite H1, Hg in Hlo, Hhi.
  apply Qlt_inject_Z_bounds;
    [change (inject_Z 56283) with 56283 | change (inject_Z 56285) with 56285]; lra.
Qed.

Lemma mul_one_comp (a g : Q) : a == 1 -> a * g == g.
Proof. intros H. rewrite H. ring. Qed.

Lemma round_inv_row0_gain : round_half_even inv_row0_gain = 76309%Z.
Proof. vm_compute. reflexivity. Qed.

Lemma scaled_ints_rounded_row (g g' : Q) (r : row) :
  g == g' -> rounded_row g' r (scaled_ints g r).
Proof.
  intros Hg. unfold rounded_row, scaled_ints.
  induction r as [| x r IH]; cbn [map]; constructor; [| exact IH].
  rewrite Hg. split; [reflexivity | apply round_half_even_nearest].
Qed.

Lemma scaled_ints_comp (k : Q) (r1 r2 : row) :
  Forall2 Qeq r1 r2 -> scaled_ints k r1 = scaled_ints k r2.
Proof.
  intros H. unfold scaled_ints.
  induction H as [| x y r1 r2 Hxy _ IH]; cbn [map]; [reflexivity |].
  rewrite IH. f_equal. now rewrite Hxy.
Qed.

(** ** Strings and decimal numerals *)

Lemma append_assoc (s1 s2 s3 : string) :
  ((s1 ++ s2) ++ s3 = s1 ++ (s2 ++ s3))%string.
Proof.
  induction s1 as [| c s1 IH]; cbn [append]; [reflexivity | now rewrite IH].
Qed.

Lemma all_digits_string_of_uint (d : Decimal.uint) :
  all_digits (NilEmpty.string_of_uint d) = true.
Proof. induction d; cbn [NilEmpty.string_of_uint all_digits]; auto. Qed.

Lemma is_base10_uint (d : Decimal.uint) :
  is_base10 (NilZero.string_of_uint d) = true /\
  exists c s, NilZero.string_of_uint d = String c s /\ c <> "-"%char.
Proof.
  pose proof (all_digits_string_of_uint d) as H.
  destruct d; cbn [NilZero.string_of_uint NilEmpty.string_of_uint] in *;
    (split; [exact H || reflexivity | do 2 eexists; split; [reflexivity | discriminate]]).
Qed.

Lemma str_of_int_base10 (z : Z) : is_base10 (str_of_int z) = true.
Proof.
  unfold str_of_int.
  destruct (Z.to_int z) as [d | d]; cbn [NilZero.string_of_int].
  - apply is_base10_uint.
  - destruct (is_base10_uint d) as (Hd & c & s & Hs & Hc).
    rewrite Hs in *. cbn [is_base10].
    destruct c as [[|] [|] [|] [|] [|] [|] [|] [|]];
      first [exact Hd | discriminate Hd | exfalso; apply Hc; reflexivity].
Qed.

Lemma str_of_int_read_back (z : Z) : int_of_str (str_of_int z) = Some z.
Proof.
  unfold int_of_str, str_of_int.
  rewrite NilZero.isi.
  - cbn [option_map]. now rewrite DecimalZ.of_to.
  - destruct z; cbn [Z.to_int]; try discriminate.
    intros [= H]. now apply DecimalPos.Unsigned.to_uint_nonnil in H.
  - destruct z; cbn [Z.to_int]; try discriminate.
    intros [= H]. now apply DecimalPos.Unsigned.to_uint_nonnil in H.
Qed.

(** ** Matrices up to equality of entries *)

Lemma mat_eq_sym (X Y : matrix) : mat_eq X Y -> mat_eq Y X.
Proof.
  unfold mat_eq. intros H.
  induction H as [| r s X Y Hr _ IH]; constructor; [| exact IH].
  induction Hr as [| x y r s Hxy _ IHr]; constructor; [now symmetry | exact IHr].
Qed.

Lemma row_eq_trans (r s t : row) :
  Forall2 Qeq r s -> Forall2 Qeq s t -> Forall2 Qeq r t.
Proof.
  intros H. revert t.
  induction H as [| x y r s Hxy _ IH]; intros t Ht; inversion Ht as [| y' z s' t' Hyz Hst]; subst;
    constructor; [now transitivity y | now apply IH].
Qed.

Lemma mat_eq_trans (X Y Z : matrix) : mat_eq X Y -> mat_eq Y Z -> mat_eq X Z.
Proof.
  unfold mat_eq. intros H. revert Z.
  induction H as [| r s X Y Hr _ IH]; intros Z HZ; inversion HZ as [| s' t Y' Z' Hst HYZ]; subst;
    constructor; [now apply (row_eq_trans r s t) | now apply IH].
Qed.

Lemma mat_eq_close (tol : Q) (X Y : matrix) :
  0 <= tol -> mat_eq X Y -> mat_close tol X Y.
Proof.
  intros Htol H. unfold mat_eq, mat_close in *.
  induction H as [| r1 r2 X Y Hr _ IH]; constructor; [| exact IH].
  induction Hr as [| x y r1 r2 Hxy _ IHr]; constructor; [| exact IHr].
  assert (H0 : x - y == 0) by (rewrite Hxy; ring).
  rewrite H0. exact Htol.
Qed.

Lemma table_of_comp (b0 b1 b2 : Z) (k0 k12 : Q) (X Y : matrix) :
  mat_eq X Y -> table_of b0 b1 b2 k0 k12 X = table_of b0 b1 b2 k0 k12 Y.
Proof.
  intros H. unfold mat_eq in H.
  destruct H as [| r0 s0 X Y H0 H]; [reflexivity |].
  destruct H as [| r1 s1 X Y H1 H]; [reflexivity |].
  destruct H as [| r2 s2 X Y H2 H]; [reflexivity |].
  destruct H as [| r3 s3 X Y H3 H]; [| reflexivity].
  unfold table_of.
  now rewrite (scaled_ints_comp _ _ _ H0), (scaled_ints_comp _ _ _ H1),
    (scaled_ints_comp _ _ _ H2).
Qed.

Lemma table_of_shape (b0 b1 b2 : Z) (k0 k12 : Q) (a b c d e f g h i : Q) :
  exists m00 m01 m02 m10 m11 m12 m20 m21 m22,
    table_of b0 b1 b2 k0 k12 [[a; b; c]; [d; e; f]; [g; h; i]] =
    [[b0; m00; m01; m02]; [b1; m10; m11; m12]; [b2; m20; m21; m22]].
Proof. unfold table_of, scaled_ints. cbn [map]. repeat eexists. Qed.

Lemma A_code_comp (kb kr kb' kr' : Q) :
  kb == kb' -> kr == kr' -> mat_eq (A_code kb kr) (A_code kb' kr').
Proof.
  intros Hb Hr. unfold mat_eq, A_code.
  repeat constructor; rewrite ?Hb, ?Hr; reflexivity.
Qed.

Lemma B_closed_comp (kb kr kb' kr' : Q) :
  kb == kb' -> kr == kr' -> mat_eq (B_closed kb kr) (B_closed kb' kr').
Proof.
  intros Hb Hr. unfold mat_eq, B_closed.
  repeat constructor; rewrite ?Hb, ?Hr; reflexivity.
Qed.

Lemma denominators_comp (kb kr kb' kr' : Q) :
  kb == kb' -> kr == kr' ->
  (1 - kb == 0 <-> 1 - kb' == 0) /\
  (1 - kr == 0 <-> 1 - kr' == 0) /\
  (1 - kr - kb == 0 <-> 1 - kr' - kb' == 0).
Proof. intros Hb Hr. repeat split; intros H; lra. Qed.

(** [inv] returns 3x3 matrices only. *)
Lemma inv_shape (M B : matrix) :
  inv M = inr B ->
  exists a b c d e f g h i, B = [[a; b; c]; [d; e; f]; [g; h; i]].
Proof.
  unfold inv.
  destruct M as [| [| a [| b [| c [| ? ?]]]] [| [| d [| e [| f [| ? ?]]]] [| [| g [| h [| i [| ? ?]]]] [| ? ?]]]];
    try discriminate.
  destruct (Qeq_bool _ 0); [discriminate |].
  intros H. injection H as <-. repeat eexists.
Qed.

(** [inv] returns a right and left inverse, whatever the matrix. *)
Lemma inv_inverse (M B : matrix) :
  inv M = inr B ->
  mat_eq (mat_mul M B) identity3 /\ mat_eq (mat_mul B M) identity3.
Proof.
  unfold inv.
  destruct M as [| [| a [| b [| c [| ? ?]]]] [| [| d [| e [| f [| ? ?]]]] [| [| g [| h [| i [| ? ?]]]] [| ? ?]]]];
    try discriminate.
  set (D := det3 a b c d e f g h i).
  destruct (Qeq_bool D 0) eqn:E; [discriminate |].
  apply Qeq_bool_neq in E.
  intros H. injection H as <-.
  unfold mat_eq, mat_mul, identity3, column, dot.
  cbn [map seq List.length hd nth combine fold_right fst snd].
  assert (HD : D == det3 a b c d e f g h i) by reflexivity.
  clearbody D. unfold det3 in HD.
  split; repeat constructor; field_simplify_eq; try assumption.
  all: first [ring | rewrite HD; ring].
Qed.

(** ** The steps of the script, one by one *)

Lemma truediv_ok (x y : Q) : ~ y == 0 -> truediv x y = inr (x / y).
Proof.
  intros Hy. unfold truediv.
  destruct (Qeq_bool y 0) eqn:E; [| reflexivity].
  apply Qeq_bool_iff in E. contradiction.
Qed.

Lemma truediv_zero (x y : Q) : y == 0 -> truediv x y = inl ZeroDivisionError.
Proof.
  intros Hy. unfold truediv. apply Qeq_bool_iff in Hy. now rewrite Hy.
Qed.

Lemma build_A_ok (kb kr : Q) :
  ~ 1 - kb == 0 -> ~ 1 - kr == 0 -> build_A kb kr = inr (A_code kb kr).
Proof.
  intros Hb Hr. unfold build_A, A_code.
  now rewrite !(truediv_ok _ _ Hb), !(truediv_ok _ _ Hr).
Qed.

Lemma build_A_raises (kb kr : Q) :
  1 - kb == 0 \/ 1 - kr == 0 -> build_A kb kr = inl ZeroDivisionError.
Proof.
  intros H. unfold build_A.
  destruct (Qeq_dec (1 - kb) 0) as [Hb | Hb].
  - now rewrite (truediv_zero _ _ Hb).
  - destruct H as [H | Hr]; [contradiction |].
    rewrite !(truediv_ok _ _ Hb). cbn [rbind].
    now rewrite (truediv_zero _ _ Hr).
Qed.

(** The determinant of the forward matrix. *)
Lemma det_A_code (kb kr : Q) :
  ~ 1 - kb == 0 -> ~ 1 - kr == 0 ->
  match A_code kb kr with
  | [[a; b; c]; [d; e; f]; [g; h; i]] => det3 a b c d e f g h i
  | _ => 0
  end == (1 - kr - kb) / (4 * (1 - kb) * (1 - kr)).
Proof.
  intros Hb Hr. unfold A_code, det3. field. split; assumption.
Qed.

Lemma inv_A_code (kb kr : Q) :
  ~ 1 - kb == 0 -> ~ 1 - kr == 0 -> ~ 1 - kr - kb == 0 ->
  exists B, inv (A_code kb kr) = inr B /\ mat_eq B (B_closed kb kr).
Proof.
  intros Hb Hr Hg.
  pose proof (det_A_code kb kr Hb Hr) as HD.
  unfold A_code in *. unfold inv.
  set (D := det3 _ _ _ _ _ _ _ _ _) in *.
  assert (HD0 : ~ D == 0).
  { rewrite HD. intros H0.
    apply Hg. 
    assert (Hm : (1 - kr - kb) == (1 - kr - kb) / (4 * (1 - kb) * (1 - kr)) * (4 * (1 - kb) * (1 - kr)))
      by (field; split; assumption).
    rewrite Hm, H0. ring. }
  destruct (Qeq_bool D 0) eqn:E.
  { apply Qeq_bool_iff in E. contradiction. }
  eexists. split; [reflexivity |].
  unfold B_closed, mat_eq.
  repeat constructor; rewrite HD; field; repeat split; assumption.
Qed.

Lemma inv_A_code_singular (kb kr : Q) :
  ~ 1 - kb == 0 -> ~ 1 - kr == 0 -> 1 - kr - kb == 0 ->
  inv (A_code kb kr) = inl LinAlgError.
Proof.
  intros Hb Hr Hg.
  pose proof (det_A_code kb kr Hb Hr) as HD.
  unfold A_code in *. unfold inv.
  set (D := det3 _ _ _ _ _ _ _ _ _) in *.
  assert (HD0 : D == 0).
  { rewrite HD, Hg. field. split; assumption. }
  apply Qeq_bool_iff in HD0. now rewrite HD0.
Qed.

Lemma chroma_rows_sum_zero (kb kr : Q) :
  ~ 1 - kb == 0 -> ~ 1 - kr == 0 ->
  (1 # 2) * - kr / (1 - kb) + (1 # 2) * - (1 - kr - kb) / (1 - kb)
  + (1 # 2) * (1 - kb) / (1 - kb) == 0 /\
  (1 # 2) * (1 - kr) / (1 - kr) + (1 # 2) * - (1 - kr - kb) / (1 - kr)
  + (1 # 2) * - kb / (1 - kr) == 0.
Proof. intros Hb Hr. split; field; assumption. Qed.

Lemma map_py_int_rounded (k : Q) (r : row) :
  map py_int (map np_round (scale_row k r)) = scaled_ints k r.
Proof.
  unfold scale_row, scaled_ints. rewrite !map_map.
  apply map_ext. intros x. apply py_int_np_round.
Qed.

Lemma forward_table_rows (r0 r1 r2 : row) :
  forward_table [r0; r1; r2] =
  inr [inject_Z 1081344 :: map np_round (scale_row fwd_luma_gain r0);
       inject_Z 8421376 :: map np_round (scale_row fwd_chroma_gain r1);
       inject_Z 8421376 :: map np_round (scale_row fwd_chroma_gain r2)].
Proof. reflexivity. Qed.

Lemma inverse_table_rows (r0 r1 r2 : row) :
  inverse_table [r0; r1; r2] =
  inr [inject_Z 32768 :: map np_round (scale_row inv_row0_gain r0);
       inject_Z 32768 :: map np_round (scale_row inv_rows12_gain r1);
       inject_Z 32768 :: map np_round (scale_row inv_rows12_gain r2)].
Proof. reflexivity. Qed.

Lemma forward_table_ints (r0 r1 r2 : row) :
  exists T, forward_table [r0; r1; r2] = inr T /\
            map (map py_int) T = fwd_ints [r0; r1; r2].
Proof.
  eexists. split; [apply forward_table_rows |].
  unfold fwd_ints, table_of. cbn [map].
  now rewrite !map_py_int_rounded, !py_int_inject_Z.
Qed.

Lemma inverse_table_ints (r0 r1 r2 : row) :
  exists T, inverse_table [r0; r1; r2] = inr T /\
            map (map py_int) T = inv_ints [r0; r1; r2].
Proof.
  eexists. split; [apply inverse_table_rows |].
  unfold inv_ints, table_of. cbn [map].
  now rewrite !map_py_int_rounded, !py_int_inject_Z.
Qed.

Lemma format_row_rgb (T : list (list Q)) (i : nat) (r : list Q) (b c0 c1 c2 : Z) :
  nth_error T i = Some r -> map py_int r = [b; c0; c1; c2] ->
  format_row fmt_rgb T i = inr (expr_line "r" "g" "b" [b; c0; c1; c2]).
Proof.
  intros Hi Hr. unfold format_row, getitem. rewrite Hi. cbn [rbind].
  rewrite Hr. reflexivity.
Qed.

Lemma format_row_ycc (T : list (list Q)) (i : nat) (r : list Q) (b c0 c1 c2 : Z) :
  nth_error T i = Some r -> map py_int r = [b; c0; c1; c2] ->
  format_row fmt_ycc T i = inr (expr_line "y" "cb" "cr" [b; c0; c1; c2]).
Proof.
  intros Hi Hr. unfold format_row, getitem. rewrite Hi. cbn [rbind].
  rewrite Hr. reflexivity.
Qed.

(** The whole run, once the matrix literal and the inversion went through:
    nothing raises afterwards, and the text is the layout of the
    specification filled with the two integer tables. *)
Lemma run_after_inv (kb kr : Q) (a b c d e f g h i : Q) (B : matrix) :
  build_A kb kr = inr [[a; b; c]; [d; e; f]; [g; h; i]] ->
  inv [[a; b; c]; [d; e; f]; [g; h; i]] = inr B ->
  let M := fwd_ints [[a; b; c]; [d; e; f]; [g; h; i]] in
  let N := inv_ints B in
  printed_tables kb kr = inr (M, N) /\
  run kb kr = (spec_output M N, inr tt).
Proof.
  intros HA HB M N.
  destruct (inv_shape _ _ HB) as (a' & b' & c' & d' & e' & f' & g' & h' & i' & ->).
  destruct (forward_table_ints [a; b; c] [d; e; f] [g; h; i]) as (TA & HTA & HMA).
  destruct (inverse_table_ints [a'; b'; c'] [d'; e'; f'] [g'; h'; i']) as (TB & HTB & HMB).
  split.
  - unfold printed_tables. rewrite HA. cbn [rbind]. rewrite HB. cbn [rbind].
    rewrite HTA. cbn [rbind]. rewrite HTB. cbn [rbind].
    now rewrite HMA, HMB.
  - rewrite forward_table_rows in HTA. injection HTA as <-.
    rewrite inverse_table_rows in HTB. injection HTB as <-.
    unfold run, script, bind, lift, print_row.
    rewrite HA. cbv beta iota. rewrite HB. cbv beta iota.
    rewrite forward_table_rows. unfold print. cbv beta iota.
    rewrite inverse_table_rows. cbv beta iota.
    clear HMA HMB.
    assert (Hrow : forall b x0 x1 x2,
               map py_int [inject_Z b; np_round x0; np_round x1; np_round x2]
               = [b; round_half_even x0; round_half_even x1; round_half_even x2]).
    { intros. cbn [map]. now rewrite !py_int_np_round, py_int_inject_Z. }
    unfold scale_row. cbn [map].
    repeat match goal with
    | |- context [format_row fmt_rgb ?T ?i] =>
        rewrite (format_row_rgb T i _ _ _ _ _ eq_refl (Hrow _ _ _ _))
    | |- context [format_row fmt_ycc ?T ?i] =>
        rewrite (format_row_ycc T i _ _ _ _ _ eq_refl (Hrow _ _ _ _))
    end.
    subst M N. unfold bind, lift, spec_output, spec_lines, fwd_ints, inv_ints, table_of,
      scaled_ints, expr_line.
    cbn [map fold_right app].
    rewrite !append_assoc. reflexivity.
Qed.

(** ** How a run can end *)

Lemma valid_regular (kb kr : Q) : valid kb kr -> regular kb kr.
Proof.
  unfold valid, regular. intros (Hb & Hr & Hs).
  repeat split; intros H; lra.
Qed.

Lemma run_regular (kb kr : Q) :
  regular kb kr ->
  exists B,
    build_A kb kr = inr (A_code kb kr) /\
    inv (A_code kb kr) = inr B /\
    mat_eq B (B_closed kb kr) /\
    printed_tables kb kr = inr (fwd_ints (A_code kb kr), inv_ints B) /\
    run kb kr = (spec_output (fwd_ints (A_code kb kr)) (inv_ints B), inr tt).
Proof.
  intros (Hb & Hr & Hg).
  destruct (inv_A_code kb kr Hb Hr Hg) as (B & HB & HBc).
  pose proof (build_A_ok kb kr Hb Hr) as HA.
  exists B. repeat split; try assumption.
  - exact (proj1 (run_after_inv kb kr _ _ _ _ _ _ _ _ _ B HA HB)).
  - exact (proj2 (run_after_inv kb kr _ _ _ _ _ _ _ _ _ B HA HB)).
Qed.

Lemma run_build_raises (kb kr : Q) (e : exn) :
  build_A kb kr = inl e -> run kb kr = (EmptyString, inl e).
Proof. intros H. unfold run, script, bind, lift. now rewrite H. Qed.

Lemma run_inv_raises (kb kr : Q) (A : matrix) (e : exn) :
  build_A kb kr = inr A -> inv A = inl e -> run kb kr = (EmptyString, inl e).
Proof.
  intros HA HB. unfold run, script, bind, lift.
  rewrite HA. cbv beta iota. now rewrite HB.
Qed.

(** The three ways a run ends, by weight pair. *)
Lemma run_cases (kb kr : Q) :
  ((1 - kb == 0 \/ 1 - kr == 0) /\ run kb kr = (EmptyString, inl ZeroDivisionError)) \/
  (~ 1 - kb == 0 /\ ~ 1 - kr == 0 /\ 1 - kr - kb == 0 /\
   run kb kr = (EmptyString, inl LinAlgError)) \/
  (regular kb kr /\
   exists B, inv (A_code kb kr) = inr B /\
             printed_tables kb kr = inr (fwd_ints (A_code kb kr), inv_ints B) /\
             run kb kr = (spec_output (fwd_ints (A_code kb kr)) (inv_ints B), inr tt)).
Proof.
  destruct (Qeq_dec (1 - kb) 0) as [Hb | Hb].
  { left. split; [now left |]. apply run_build_raises, build_A_raises. now left. }
  destruct (Qeq_dec (1 - kr) 0) as [Hr | Hr].
  { left. split; [now right |]. apply run_build_raises, build_A_raises. now right. }
  destruct (Qeq_dec (1 - kr - kb) 0) as [Hg | Hg].
  { right; left. repeat split; try assumption.
    apply (run_inv_raises kb kr (A_code kb kr)).
    - now apply build_A_ok.
    - now apply inv_A_code_singular. }
  right; right.
  assert (Hreg : regular kb kr) by (repeat split; assumption).
  split; [exact Hreg |].
  destruct (run_regular kb kr Hreg) as (B & _ & HB & _ & HT & Hrun).
  exists B. auto.
Qed.

Lemma printed_tables_inr (kb kr : Q) (M N : list (list Z)) :
  printed_tables kb kr = inr (M, N) ->
  regular kb kr /\
  exists B, inv (A_code kb kr) = inr B /\
            M = fwd_ints (A_code kb kr) /\ N = inv_ints B /\
            run kb kr = (spec_output M N, inr tt).
Proof.
  intros HT.
  destruct (run_cases kb kr) as [(Hz & _) | [(Hb & Hr & Hg & _) | (Hreg & B & HB & HT' & Hrun)]].
  - unfold printed_tables in HT. rewrite (build_A_raises _ _ Hz) in HT. discriminate.
  - unfold printed_tables in HT. rewrite (build_A_ok _ _ Hb Hr) in HT.
    cbn [rbind] in HT. rewrite (inv_A_code_singular _ _ Hb Hr Hg) in HT. discriminate.
  - rewrite HT' in HT. injection HT as <- <-.
    split; [exact Hreg |]. exists B. auto.
Qed.

Lemma valid_bt709 : valid bt709_kb bt709_kr.
Proof. unfold valid, bt709_kb, bt709_kr. repeat split; reflexivity. Defined.

(** * Properties of the specification *)

(** ** C1: forward then inverse *)

(** The shipped weights, white: green and blue come back six levels low. *)
Example round_trip_bt709_white :
  round_trip bt709_kb bt709_kr (255, 255, 255)%Z = inr (255, 249, 249)%Z.
Proof. vm_compute. reflexivity. Qed.

(** The shipped weights, pure red: red comes back five levels high and
    outside the byte range. *)
Example round_trip_bt709_red :
  round_trip bt709_kb bt709_kr (255, 0, 0)%Z = inr (260, -1, -1)%Z.
Proof. vm_compute. reflexivity. Qed.

(** The forward formulas alone already lose more than one level.  With the
    shipped weights the pixels (0,0,74) and (0,1,77) are sent to the same
    triple, so whatever is computed from that triple misses the blue of one
    of them by at least 2. *)
Lemma forward_collision_bt709 :
  exists M N,
    printed_tables bt709_kb bt709_kr = inr (M, N) /\
    rgb_to_ycbcr M (0, 0, 74)%Z = (21, 161, 125)%Z /\
    rgb_to_ycbcr M (0, 1, 77)%Z = (21, 161, 125)%Z /\
    forall back : Z * Z * Z -> Z * Z * Z,
      ~ (within 1 (back (rgb_to_ycbcr M (0, 0, 74)%Z)) (0, 0, 74)%Z /\
         within 1 (back (rgb_to_ycbcr M (0, 1, 77)%Z)) (0, 1, 77)%Z).
Proof.
  do 2 eexists. split; [vm_compute; reflexivity |].
  assert (E1 : rgb_to_ycbcr
                 [[1081344; 11966; 40254; 4064];
                  [8421376; -6596; -22189; 28784];
                  [8421376; 28784; -26145; -2639]]%Z (0, 0, 74)%Z
               = (21, 161, 125)%Z) by (vm_compute; reflexivity).
  assert (E2 : rgb_to_ycbcr
                 [[1081344; 11966; 40254; 4064];
                  [8421376; -6596; -22189; 28784];
                  [8421376; 28784; -26145; -2639]]%Z (0, 1, 77)%Z
               = (21, 161, 125)%Z) by (vm_compute; reflexivity).
  split; [exact E1 |]. split; [exact E2 |].
  intros back. rewrite E1, E2.
  destruct (back (21, 161, 125)%Z) as [[r' g'] b'].
  unfold within. lia.
Qed.

(** With a green weight of 1/10000 the forward formulas send black and
    full green to the same triple. *)
Example forward_collision_small_green :
  valid (1 # 2) (4999 # 10000) /\
  exists M N,
    printed_tables (1 # 2) (4999 # 10000) = inr (M, N) /\
    rgb_to_ycbcr M (0, 0, 0)%Z = (16, 128, 128)%Z /\
    rgb_to_ycbcr M (0, 255, 0)%Z = (16, 128, 128)%Z.
Proof.
  split; [unfold valid; repeat split; reflexivity |].
  do 2 eexists. split; [vm_compute; reflexivity |].
  split; vm_compute; reflexivity.
Qed.

(** C1.  The round trip of the printed formulas is not within 1 for the
    weights the script ships with: white (255,255,255) comes back as
    (255,249,249), green and blue six levels low, and pure red (255,0,0)
    comes back as (260,-1,-1).  Lines 42-43 scale the rows of B; the
    forward table scales the rows of A (lines 30-31), whose inverse has the
    columns of B scaled, which is why the luma coefficient of the green and
    blue lines is 74606 and not the 76309 of the red line. *)
Theorem C1_round_trip_bt709_fails :
  valid bt709_kb bt709_kr /\
  (in_byte 255 /\ in_byte 0) /\
  (round_trip bt709_kb bt709_kr (255, 255, 255)%Z = inr (255, 249, 249)%Z /\
   ~ within 1 (255, 249, 249)%Z (255, 255, 255)%Z) /\
  (round_trip bt709_kb bt709_kr (255, 0, 0)%Z = inr (260, -1, -1)%Z /\
   ~ within 1 (260, -1, -1)%Z (255, 0, 0)%Z).
Proof.
  split; [exact valid_bt709 |].
  split; [unfold in_byte; lia |].
  split; (split; [vm_compute; reflexivity | unfold within; lia]).
Qed.

(** ** C2: B is the exact inverse of A *)

(** C2.  For every valid weight pair the matrix literal evaluates to a
    matrix [A], [linalg.inv] returns a matrix [B] for it, and before any
    scaling [A·B] is the 3x3 identity, entry by entry, exactly (hence
    also within 1e-9). *)
Theorem C2_B_is_inverse_of_A (kb kr : Q) :
  valid kb kr ->
  exists A B,
    build_A kb kr = inr A /\ inv A = inr B /\
    mat_eq (mat_mul A B) identity3 /\
    mat_close (1 # 1000000000) (mat_mul A B) identity3.
Proof.
  intros Hv.
  destruct (run_regular kb kr (valid_regular kb kr Hv)) as (B & HA & HB & _).
  exists (A_code kb kr), B.
  pose proof (proj1 (inv_inverse _ _ HB)) as HI.
  repeat split; try assumption.
  apply mat_eq_close; [discriminate | exact HI].
Qed.

Lemma C2_B_is_inverse_of_A_witness :
  exists A B,
    build_A bt709_kb bt709_kr = inr A /\ inv A = inr B /\
    mat_eq (mat_mul A B) identity3 /\
    mat_close (1 # 1000000000) (mat_mul A B) identity3.
Proof. exact (C2_B_is_inverse_of_A bt709_kb bt709_kr valid_bt709). Defined.

(** ** C3: the matrix literal against the formulas of the specification *)

(** C3.  For 0 < kb < 1, 0 < kr < 1 and kb + kr < 1 the matrix literal of
    the script evaluates, and its value equals entry by entry the matrix
    written in the specification; in particular the entries written
    [0.5*(1-kb)/(1-kb)] and [0.5*(1.0-kr)/(1-kr)] are [0.5]. *)
Theorem C3_A_matches_spec (kb kr : Q) :
  0 < kb -> kb < 1 -> 0 < kr -> kr < 1 -> kb + kr < 1 ->
  exists A, build_A kb kr = inr A /\ mat_eq A (A_spec kb kr).
Proof.
  intros Hb0 Hb1 Hr0 Hr1 Hs.
  assert (Hb : ~ 1 - kb == 0) by (intros H; lra).
  assert (Hr : ~ 1 - kr == 0) by (intros H; lra).
  exists (A_code kb kr). split; [now apply build_A_ok |].
  unfold mat_eq, A_code, A_spec.
  repeat constructor; try reflexivity; field; assumption.
Qed.

Lemma C3_A_matches_spec_witness :
  exists A, build_A bt709_kb bt709_kr = inr A /\
            mat_eq A (A_spec bt709_kb bt709_kr).
Proof.
  apply C3_A_matches_spec; unfold bt709_kb, bt709_kr; reflexivity.
Defined.

(** ** C4: the printed text *)

(** The text printed for the weights the script ships with. *)
Example run_bt709 :
  run bt709_kb bt709_kr =
  (spec_output
     [[1081344; 11966; 40254; 4064];
      [8421376; -6596; -22189; 28784];
      [8421376; 28784; -26145; -2639]]%Z
     [[32768; 76309; 0; 120171];
      [32768; 74606; -13975; -34925];
      [32768; 74606; 138438; 0]]%Z,
   inr tt).
Proof. vm_compute. reflexivity. Qed.

(** The text printed for the pair the script keeps in a comment. *)
Example run_bt601 :
  run bt601_kb bt601_kr =
  (spec_output
     [[1081344; 16829; 33039; 6416];
      [8421376; -9714; -19071; 28784];
      [8421376; 28784; -24103; -4681]]%Z
     [[32768; 76309; 0; 106985];
      [32768; 74606; -25675; -53279];
      [32768; 74606; 132201; 0]]%Z,
   inr tt).
Proof. vm_compute. reflexivity. Qed.

(** C4.  When no step raises (in particular for the shipped weights) the run
    ends normally and its standard output is exactly: an empty line,
    [RGB to YCbCr:], three forward expression lines, an empty line,
    [YCbCr to RGB:], [y -= 16], [cb -= 128], [cr -= 128] and three inverse
    expression lines; each of the twenty-four placeholders is a base-10
    signed integer that reads back as the number printed. *)
Theorem C4_output_structure (kb kr : Q) :
  regular kb kr ->
  (exists b0 m00 m01 m02 b1 m10 m11 m12 b2 m20 m21 m22
          b0' n00 n01 n02 b1' n10 n11 n12 b2' n20 n21 n22,
     run kb kr =
     (spec_output
        [[b0; m00; m01; m02]; [b1; m10; m11; m12]; [b2; m20; m21; m22]]
        [[b0'; n00; n01; n02]; [b1'; n10; n11; n12]; [b2'; n20; n21; n22]],
      inr tt)) /\
  (forall z, is_base10 (str_of_int z) = true /\ int_of_str (str_of_int z) = Some z).
Proof.
  intros Hreg. split.
  - destruct (run_regular kb kr Hreg) as (B & HA & HB & _ & _ & Hrun).
    destruct (inv_shape _ _ HB) as (a & b & c & d & e & f & g & h & i & ->).
    rewrite Hrun. unfold fwd_ints, inv_ints, A_code.
    destruct (table_of_shape 1081344 8421376 8421376 fwd_luma_gain fwd_chroma_gain
                kr (1 - kr - kb) kb
                ((1 # 2) * - kr / (1 - kb)) ((1 # 2) * - (1 - kr - kb) / (1 - kb))
                ((1 # 2) * (1 - kb) / (1 - kb))
                ((1 # 2) * (1 - kr) / (1 - kr)) ((1 # 2) * - (1 - kr - kb) / (1 - kr))
                ((1 # 2) * - kb / (1 - kr)))
      as (m00 & m01 & m02 & m10 & m11 & m12 & m20 & m21 & m22 & ->).
    destruct (table_of_shape 32768 32768 32768 inv_row0_gain inv_rows12_gain
                a b c d e f g h i)
      as (n00 & n01 & n02 & n10 & n11 & n12 & n20 & n21 & n22 & ->).
    repeat eexists.
  - intros z. split; [apply str_of_int_base10 | apply str_of_int_read_back].
Qed.

Lemma C4_output_structure_witness :
  regular bt709_kb bt709_kr /\
  ((exists b0 m00 m01 m02 b1 m10 m11 m12 b2 m20 m21 m22
           b0' n00 n01 n02 b1' n10 n11 n12 b2' n20 n21 n22,
      run bt709_kb bt709_kr =
      (spec_output
         [[b0; m00; m01; m02]; [b1; m10; m11; m12]; [b2; m20; m21; m22]]
         [[b0'; n00; n01; n02]; [b1'; n10; n11; n12]; [b2'; n20; n21; n22]],
       inr tt)) /\
   (forall z, is_base10 (str_of_int z) = true /\ int_of_str (str_of_int z) = Some z)).
Proof.
  assert (H : regular bt709_kb bt709_kr)
    by (unfold regular, bt709_kb, bt709_kr; repeat split; discriminate).
  split; [exact H | exact (C4_output_structure bt709_kb bt709_kr H)].
Defined.

(** ** C5: the bias terms *)

(** C5.  Whatever the weight pair, when the script reaches its prints the
    forward luma row starts with 1081344, both forward chroma rows start
    with 8421376 and all three inverse rows start with 32768: these are the
    first numbers of the six expression lines of the printed text. *)
Theorem C5_bias_terms (kb kr : Q) (M N : list (list Z)) :
  printed_tables kb kr = inr (M, N) ->
  (16 * 65536 + 32768 = 1081344 /\ 128 * 65536 + 32768 = 8421376)%Z /\
  exists m00 m01 m02 m10 m11 m12 m20 m21 m22 n00 n01 n02 n10 n11 n12 n20 n21 n22,
    M = [[1081344; m00; m01; m02]; [8421376; m10; m11; m12]; [8421376; m20; m21; m22]]%Z /\
    N = [[32768; n00; n01; n02]; [32768; n10; n11; n12]; [32768; n20; n21; n22]]%Z /\
    run kb kr = (spec_output M N, inr tt).
Proof.
  intros HT. split; [split; reflexivity |].
  destruct (printed_tables_inr kb kr M N HT) as (_ & B & HB & -> & -> & Hrun).
  destruct (inv_shape _ _ HB) as (a & b & c & d & e & f & g & h & i & ->).
  unfold fwd_ints, inv_ints, A_code, table_of, scaled_ints in *. cbn [map] in *.
  do 18 eexists. repeat split. exact Hrun.
Qed.

Lemma C5_bias_terms_witness :
  exists m00 m01 m02 m10 m11 m12 m20 m21 m22 n00 n01 n02 n10 n11 n12 n20 n21 n22,
    [[1081344; 11966; 40254; 4064];
     [8421376; -6596; -22189; 28784];
     [8421376; 28784; -26145; -2639]]%Z =
    [[1081344; m00; m01; m02]; [8421376; m10; m11; m12]; [8421376; m20; m21; m22]]%Z /\
    [[32768; 76309; 0; 120171];
     [32768; 74606; -13975; -34925];
     [32768; 74606; 138438; 0]]%Z =
    [[32768; n00; n01; n02]; [32768; n10; n11; n12]; [32768; n20; n21; n22]]%Z /\
    run bt709_kb bt709_kr =
    (spec_output
       [[1081344; 11966; 40254; 4064];
        [8421376; -6596; -22189; 28784];
        [8421376; 28784; -26145; -2639]]%Z
       [[32768; 76309; 0; 120171];
        [32768; 74606; -13975; -34925];
        [32768; 74606; 138438; 0]]%Z,
     inr tt).
Proof.
  refine (proj2 (C5_bias_terms bt709_kb bt709_kr _ _ _)).
  vm_compute. reflexivity.
Defined.

(** ** C6: the inverse coefficients *)

(** C6.  For every valid weight pair, with [B] the matrix returned by
    [linalg.inv]: the inverse table printed by the script has, after the
    bias of each row, the entries of B's first row times 65536*255/219 and
    the entries of B's second and third rows times 65536*255/224, each
    rounded to a nearest integer; these are the numbers of the printed
    text. *)
Theorem C6_inverse_coefficients (kb kr : Q) :
  valid kb kr ->
  exists A r0 r1 r2 M l0 l1 l2,
    build_A kb kr = inr A /\ inv A = inr [r0; r1; r2] /\
    printed_tables kb kr = inr (M, [32768%Z :: l0; 32768%Z :: l1; 32768%Z :: l2]) /\
    run kb kr = (spec_output M [32768%Z :: l0; 32768%Z :: l1; 32768%Z :: l2], inr tt) /\
    rounded_row (65536 * 255 / 219) r0 l0 /\
    rounded_row (65536 * 255 / 224) r1 l1 /\
    rounded_row (65536 * 255 / 224) r2 l2 /\
    List.length l0 = 3%nat /\ List.length l1 = 3%nat /\ List.length l2 = 3%nat.
Proof.
  intros Hv.
  destruct (run_regular kb kr (valid_regular kb kr Hv)) as (B & HA & HB & _ & HT & Hrun).
  destruct (inv_shape _ _ HB) as (a & b & c & d & e & f & g & h & i & ->).
  exists (A_code kb kr), [a; b; c], [d; e; f], [g; h; i], (fwd_ints (A_code kb kr)),
    (scaled_ints inv_row0_gain [a; b; c]),
    (scaled_ints inv_rows12_gain [d; e; f]),
    (scaled_ints inv_rows12_gain [g; h; i]).
  repeat split; try assumption; apply scaled_ints_rounded_row; reflexivity.
Qed.

Lemma C6_inverse_coefficients_witness :
  valid bt709_kb bt709_kr /\
  exists A r0 r1 r2 M l0 l1 l2,
    build_A bt709_kb bt709_kr = inr A /\ inv A = inr [r0; r1; r2] /\
    printed_tables bt709_kb bt709_kr
    = inr (M, [32768%Z :: l0; 32768%Z :: l1; 32768%Z :: l2]) /\
    run bt709_kb bt709_kr
    = (spec_output M [32768%Z :: l0; 32768%Z :: l1; 32768%Z :: l2], inr tt) /\
    rounded_row (65536 * 255 / 219) r0 l0 /\
    rounded_row (65536 * 255 / 224) r1 l1 /\
    rounded_row (65536 * 255 / 224) r2 l2 /\
    List.length l0 = 3%nat /\ List.length l1 = 3%nat /\ List.length l2 = 3%nat.
Proof.
  split; [exact valid_bt709 | exact (C6_inverse_coefficients _ _ valid_bt709)].
Defined.

(** ** C7: the forward luma coefficients sum to the luma gain *)

(** C7.  For every valid weight pair the three multiplicative coefficients
    of the printed forward luma row, each divided by 65536*219/255 and then
    summed, are within 3/(65536*219/255) of 1. *)
Theorem C7_luma_row_sum (kb kr : Q) :
  valid kb kr ->
  exists m0 m1 m2 row1 row2 N,
    printed_tables kb kr = inr ([[1081344%Z; m0; m1; m2]; row1; row2], N) /\
    run kb kr = (spec_output [[1081344%Z; m0; m1; m2]; row1; row2] N, inr tt) /\
    Qabs (inject_Z m0 / (65536 * 219 / 255) + inject_Z m1 / (65536 * 219 / 255)
          + inject_Z m2 / (65536 * 219 / 255) - 1)
    <= 3 / (65536 * 219 / 255).
Proof.
  intros Hv.
  destruct (run_regular kb kr (valid_regular kb kr Hv)) as (B & _ & _ & _ & HT & Hrun).
  unfold fwd_ints, A_code, table_of, scaled_ints in HT, Hrun. cbn [map] in HT, Hrun.
  do 6 eexists. split; [exact HT |]. split; [exact Hrun |].
  pose proof (sum3_rounded kr (1 - kr - kb) kb fwd_luma_gain) as Hs.
  cbv zeta in Hs. rewrite !inject_Z_plus in Hs.
  remember (inject_Z (round_half_even (kr * fwd_luma_gain))) as m0 eqn:E0.
  remember (inject_Z (round_half_even ((1 - kr - kb) * fwd_luma_gain))) as m1 eqn:E1.
  remember (inject_Z (round_half_even (kb * fwd_luma_gain))) as m2 eqn:E2.
  clear E0 E1 E2 HT Hrun.
  pose proof fwd_luma_gain_value as Hg.
  revert Hs Hg. generalize fwd_luma_gain. intros g Hs Hg.
  rewrite Hg in Hs.
  assert (Hd : forall x : Q, x / (65536 * 219 / 255) == x * (255 # 14352384))
    by (intros x; field).
  assert (Hc : 3 / (65536 * 219 / 255) == 765 # 14352384) by reflexivity.
  rewrite !Hd, Hc.
  apply Qabs_Qle_condition. destruct Hs as [Hlo Hhi].
  split; lra.
Qed.

Lemma C7_luma_row_sum_witness :
  valid bt709_kb bt709_kr /\
  exists m0 m1 m2 row1 row2 N,
    printed_tables bt709_kb bt709_kr = inr ([[1081344%Z; m0; m1; m2]; row1; row2], N) /\
    run bt709_kb bt709_kr
    = (spec_output [[1081344%Z; m0; m1; m2]; row1; row2] N, inr tt) /\
    Qabs (inject_Z m0 / (65536 * 219 / 255) + inject_Z m1 / (65536 * 219 / 255)
          + inject_Z m2 / (65536 * 219 / 255) - 1)
    <= 3 / (65536 * 219 / 255).
Proof.
  split; [exact valid_bt709 | exact (C7_luma_row_sum _ _ valid_bt709)].
Defined.

(** ** C8: no partial output on the error path *)

Lemma run_checked_build_raises (linv : list (list Q) -> result (list (list Q)))
  (kb kr : Q) (e : exn) :
  build_A kb kr = inl e -> run_checked linv kb kr = (EmptyString, inl e).
Proof. intros H. unfold run_checked, script_checked, bind, lift. now rewrite H. Qed.

Lemma run_checked_inv_raises (linv : list (list Q) -> result (list (list Q)))
  (kb kr : Q) (A : list (list Q)) (e : exn) :
  build_A kb kr = inr A -> linv A = inl e ->
  run_checked linv kb kr = (EmptyString, inl e).
Proof.
  intros HA HB. unfold run_checked, script_checked, bind, lift.
  rewrite HA. cbv beta iota. now rewrite HB.
Qed.

(** Within the float range the checked prints are the prints of [script]:
    the shipped weights give the same run. *)
Example run_checked_bt709 : run_checked inv bt709_kb bt709_kr = run bt709_kb bt709_kr.
Proof. vm_compute. reflexivity. Qed.

(** With kb = 2^1023 and kr = 1/2 the green coefficient of the luma line
    is beyond the float range: formatting that line raises. *)
Lemma luma_line_overflows (T1 T2 : list Q) :
  format_row_checked fmt_rgb
    [inject_Z 1081344
       :: map np_round
            (scale_row fwd_luma_gain
               [1 # 2; 1 - (1 # 2) - inject_Z (2 ^ 1023); inject_Z (2 ^ 1023)]);
     T1; T2] 0
  = inl OverflowError.
Proof. vm_compute. reflexivity. Qed.




(** A pair with [kb + kr > 1] and neither weight equal to 1 is no error:
    the matrix is invertible and the run prints its thirteen lines. *)
Example run_sum_above_one :
  exists out, run (6 # 10) (6 # 10) = (out, inr tt) /\ out <> EmptyString.
Proof. eexists. split; [vm_compute; reflexivity | discriminate]. Qed.

(** ** Equal weights, however they are written *)

(** A run depends on the values of the two weights only, not on the
    fractions that denote them: the embedding respects equality of
    rationals. *)
Lemma run_respects_Qeq (kb kr kb' kr' : Q) :
  kb == kb' -> kr == kr' -> run kb kr = run kb' kr'.
Proof.
  intros Hb Hr.
  destruct (denominators_comp kb kr kb' kr' Hb Hr) as (Eb & Er & Eg).
  destruct (run_cases kb kr)
    as [(Hz & Hrun) | [(Hnb & Hnr & Hg & Hrun) | (Hreg & B & HB & _ & Hrun)]];
    destruct (run_cases kb' kr')
      as [(Hz' & Hrun') | [(Hnb' & Hnr' & Hg' & Hrun') | (Hreg' & B' & HB' & _ & Hrun')]];
    rewrite Hrun, Hrun'; try reflexivity;
    try (exfalso; unfold regular in *; tauto).
  - destruct Hreg as (Hnb & Hnr & Hg). destruct Hreg' as (Hnb' & Hnr' & Hg').
    destruct (inv_A_code kb kr Hnb Hnr Hg) as (B1 & HB1 & HBc).
    destruct (inv_A_code kb' kr' Hnb' Hnr' Hg') as (B1' & HB1' & HBc').
    rewrite HB in HB1. injection HB1 as <-.
    rewrite HB' in HB1'. injection HB1' as <-.
    assert (HBB : mat_eq B B').
    { apply (mat_eq_trans _ _ _ HBc).
      apply (mat_eq_trans _ (B_closed kb' kr')); [now apply B_closed_comp |].
      now apply mat_eq_sym. }
    unfold fwd_ints, inv_ints.
    now rewrite (table_of_comp _ _ _ _ _ _ _ (A_code_comp _ _ _ _ Hb Hr)),
      (table_of_comp _ _ _ _ _ _ _ HBB).
Qed.

(** ** C10: the chroma rows sum to zero *)



(** * Further properties of the script *)

(** ** Entries of the two tables that do not depend on the weights *)

Lemma round_half_even_nonneg (q : Q) : 0 <= q -> (0 <= round_half_even q)%Z.
Proof.
  intros Hq. destruct (rounded_bounds q) as [Hlo _].
  assert (H : (0 - 1 < round_half_even q)%Z).
  { rewrite Zlt_Qlt. change (inject_Z (0 - 1)) with (-1). lra. }
  lia.
Qed.

Lemma round_half_even_nonpos (q : Q) : q <= 0 -> (round_half_even q <= 0)%Z.
Proof.
  intros Hq. destruct (rounded_bounds q) as [_ Hhi].
  assert (H : (round_half_even q < 0 + 1)%Z).
  { rewrite Zlt_Qlt. change (inject_Z (0 + 1)) with 1. lra. }
  lia.
Qed.

Lemma Qmult_nonpos_nonneg (x g : Q) : x <= 0 -> 0 <= g -> x * g <= 0.
Proof.
  intros Hx Hg.
  pose proof (Qmult_le_compat_r x 0 g Hx Hg) as H.
  rewrite Qmult_0_l in H. exact H.
Qed.

Lemma Qdiv_nonpos_pos (x y : Q) : x <= 0 -> 0 < y -> x / y <= 0.
Proof.
  intros Hx Hy. apply Qle_shift_div_r; [exact Hy |]. lra.
Qed.

Lemma mul_zero_comp (a g : Q) : a == 0 -> a * g == 0.
Proof. intros H. rewrite H. ring. Qed.

Lemma mul_half_comp (a g : Q) : a == 1 # 2 -> a * g == (1 # 2) * g.
Proof. intros H. rewrite H. reflexivity. Qed.

Lemma round_zero : round_half_even 0 = 0%Z.
Proof. reflexivity. Qed.

Lemma round_inv_rows12_gain : round_half_even inv_rows12_gain = 74606%Z.
Proof. vm_compute. reflexivity. Qed.

Lemma round_half_chroma_gain : round_half_even ((1 # 2) * fwd_chroma_gain) = 28784%Z.
Proof. vm_compute. reflexivity. Qed.

Lemma fwd_luma_gain_nonneg : 0 <= fwd_luma_gain.
Proof. vm_compute. discriminate. Qed.

Lemma fwd_chroma_gain_nonneg : 0 <= fwd_chroma_gain.
Proof. vm_compute. discriminate. Qed.

(** The forward table of a regular weight pair. *)
Lemma forward_table_facts (kb kr : Q) :
  regular kb kr ->
  exists m0 m1 m2 c10 c11 c21 c22,
    fwd_ints (A_code kb kr)
    = [[1081344; m0; m1; m2]; [8421376; c10; c11; 28784]; [8421376; 28784; c21; c22]]%Z /\
    (56283 <= m0 + m1 + m2 <= 56285)%Z /\
    (-1 <= c10 + c11 + 28784 <= 1)%Z /\
    (-1 <= 28784 + c21 + c22 <= 1)%Z /\
    (valid kb kr ->
     (0 <= m0 /\ 0 <= m1 /\ 0 <= m2 /\ c10 <= 0 /\ c11 <= 0 /\ c21 <= 0 /\ c22 <= 0)%Z).
Proof.
  intros (Hb & Hr & Hg).
  destruct (chroma_rows_sum_zero kb kr Hb Hr) as [Hz1 Hz2].
  pose proof (sum3_rounded_zero _ _ _ fwd_chroma_gain Hz1) as Hc1.
  pose proof (sum3_rounded_zero _ _ _ fwd_chroma_gain Hz2) as Hc2.
  assert (HS : (56283 <= round_half_even (kr * fwd_luma_gain)
                         + round_half_even ((1 - kr - kb) * fwd_luma_gain)
                         + round_half_even (kb * fwd_luma_gain) <= 56285)%Z)
    by (apply sum3_rounded_luma; ring).
  assert (E1 : round_half_even ((1 # 2) * (1 - kb) / (1 - kb) * fwd_chroma_gain)
               = 28784%Z).
  { rewrite <- round_half_chroma_gain. apply round_half_even_comp.
    apply mul_half_comp. field. exact Hb. }
  assert (E2 : round_half_even ((1 # 2) * (1 - kr) / (1 - kr) * fwd_chroma_gain)
               = 28784%Z).
  { rewrite <- round_half_chroma_gain. apply round_half_even_comp.
    apply mul_half_comp. field. exact Hr. }
  rewrite E1 in Hc1. rewrite E2 in Hc2.
  unfold fwd_ints, A_code, table_of, scaled_ints. cbn [map].
  rewrite E1, E2.
  do 7 eexists. split; [reflexivity |].
  split; [exact HS |]. split; [exact Hc1 |]. split; [exact Hc2 |].
  intros (Hkb & Hkr & Hsum).
  pose proof fwd_luma_gain_nonneg as Hl. pose proof fwd_chroma_gain_nonneg as Hc.
  assert (Hpb : 0 < 1 - kb) by lra.
  assert (Hpr : 0 < 1 - kr) by lra.
  repeat split.
  - apply round_half_even_nonneg, Qmult_le_0_compat; [lra | exact Hl].
  - apply round_half_even_nonneg, Qmult_le_0_compat; [lra | exact Hl].
  - apply round_half_even_nonneg, Qmult_le_0_compat; [lra | exact Hl].
  - apply round_half_even_nonpos, Qmult_nonpos_nonneg; [| exact Hc].
    apply Qdiv_nonpos_pos; [lra | exact Hpb].
  - apply round_half_even_nonpos, Qmult_nonpos_nonneg; [| exact Hc].
    apply Qdiv_nonpos_pos; [lra | exact Hpb].
  - apply round_half_even_nonpos, Qmult_nonpos_nonneg; [| exact Hc].
    apply Qdiv_nonpos_pos; [lra | exact Hpr].
  - apply round_half_even_nonpos, Qmult_nonpos_nonneg; [| exact Hc].
    apply Qdiv_nonpos_pos; [lra | exact Hpr].
Qed.

(** The inverse table of a matrix whose entries are those of the closed
    form. *)
Lemma inverse_table_facts (kb kr : Q) (B : matrix) :
  mat_eq B (B_closed kb kr) ->
  exists n02 n11 n12 n21,
    inv_ints B
    = [[32768; 76309; 0; n02]; [32768; 74606; n11; n12]; [32768; 74606; n21; 0]]%Z.
Proof.
  unfold mat_eq, B_closed. intros H.
  inversion H as [| r0 ? B1 ? H0 H']; subst. clear H.
  inversion H' as [| r1 ? B2 ? H1 H'']; subst. clear H'.
  inversion H'' as [| r2 ? B3 ? H2 H''']; subst. clear H''.
  inversion H''' ; subst. clear H'''.
  inversion H0 as [| a ? t0 ? Ha H0']; subst. clear H0.
  inversion H0' as [| b ? t1 ? Hb H0'']; subst. clear H0'.
  inversion H0'' as [| c ? t2 ? Hc H0''']; subst. clear H0''.
  inversion H0'''; subst. clear H0'''.
  inversion H1 as [| d ? t0 ? Hd H1']; subst. clear H1.
  inversion H1' as [| e ? t1 ? He H1'']; subst. clear H1'.
  inversion H1'' as [| f ? t2 ? Hf H1''']; subst. clear H1''.
  inversion H1'''; subst. clear H1'''.
  inversion H2 as [| g ? t0 ? Hg H2']; subst. clear H2.
  inversion H2' as [| h ? t1 ? Hh H2'']; subst. clear H2'.
  inversion H2'' as [| i ? t2 ? Hi H2''']; subst. clear H2''.
  inversion H2'''; subst. clear H2'''.
  unfold inv_ints, table_of, scaled_ints. cbn [map].
  assert (Ea : round_half_even (a * inv_row0_gain) = 76309%Z).
  { rewrite <- round_inv_row0_gain. apply round_half_even_comp.
    now apply mul_one_comp. }
  assert (Eb : round_half_even (b * inv_row0_gain) = 0%Z).
  { rewrite <- round_zero. apply round_half_even_comp. now apply mul_zero_comp. }
  assert (Ed : round_half_even (d * inv_rows12_gain) = 74606%Z).
  { rewrite <- round_inv_rows12_gain. apply round_half_even_comp.
    now apply mul_one_comp. }
  assert (Eg : round_half_even (g * inv_rows12_gain) = 74606%Z).
  { rewrite <- round_inv_rows12_gain. apply round_half_even_comp.
    now apply mul_one_comp. }
  assert (Ei : round_half_even (i * inv_rows12_gain) = 0%Z).
  { rewrite <- round_zero. apply round_half_even_comp. now apply mul_zero_comp. }
  rewrite Ea, Eb, Ed, Eg, Ei.
  do 4 eexists. reflexivity.
Qed.

(** Both tables of a regular weight pair. *)
Lemma tables_facts (kb kr : Q) :
  regular kb kr ->
  exists m0 m1 m2 c10 c11 c21 c22 n02 n11 n12 n21,
    printed_tables kb kr
    = inr ([[1081344; m0; m1; m2]; [8421376; c10; c11; 28784];
            [8421376; 28784; c21; c22]]%Z,
           [[32768; 76309; 0; n02]; [32768; 74606; n11; n12];
            [32768; 74606; n21; 0]]%Z) /\
    run kb kr
    = (spec_output
         [[1081344; m0; m1; m2]; [8421376; c10; c11; 28784];
          [8421376; 28784; c21; c22]]%Z
         [[32768; 76309; 0; n02]; [32768; 74606; n11; n12];
          [32768; 74606; n21; 0]]%Z, inr tt) /\
    (56283 <= m0 + m1 + m2 <= 56285)%Z /\
    (-1 <= c10 + c11 + 28784 <= 1)%Z /\
    (-1 <= 28784 + c21 + c22 <= 1)%Z /\
    (valid kb kr ->
     (0 <= m0 /\ 0 <= m1 /\ 0 <= m2 /\ c10 <= 0 /\ c11 <= 0 /\ c21 <= 0 /\ c22 <= 0)%Z).
Proof.
  intros Hreg.
  destruct (run_regular kb kr Hreg) as (B & _ & _ & HBc & HT & Hrun).
  destruct (forward_table_facts kb kr Hreg)
    as (m0 & m1 & m2 & c10 & c11 & c21 & c22 & EM & HS & Hc1 & Hc2 & Hsign).
  destruct (inverse_table_facts kb kr B HBc) as (n02 & n11 & n12 & n21 & EN).
  rewrite EM, EN in HT, Hrun.
  exists m0, m1, m2, c10, c11, c21, c22, n02, n11, n12, n21.
  repeat split; try assumption; try apply Hsign; try lia; assumption.
Qed.

Lemma regular_bt601 : regular bt601_kb bt601_kr.
Proof. unfold regular, bt601_kb, bt601_kr. repeat split; discriminate. Defined.

(** ** The forward formulas on bytes *)

Lemma mul_byte_nonneg (m x : Z) :
  (0 <= m)%Z -> in_byte x -> (0 <= m * x <= 255 * m)%Z.
Proof. unfold in_byte. intros Hm Hx. nia. Qed.

Lemma mul_byte_nonpos (c x : Z) :
  (c <= 0)%Z -> in_byte x -> (255 * c <= c * x <= 0)%Z.
Proof. unfold in_byte. intros Hc Hx. nia. Qed.

Lemma eval_row_reverse (bias c0 c1 c2 x0 x1 x2 : Z) :
  eval_row [bias; c0; c1; c2] x0 x1 x2 = eval_row [bias; c2; c1; c0] x2 x1 x0.
Proof. unfold eval_row. f_equal. ring. Qed.

Lemma luma_row_range (m0 m1 m2 r g b : Z) :
  (0 <= m0)%Z -> (0 <= m1)%Z -> (0 <= m2)%Z ->
  (56283 <= m0 + m1 + m2 <= 56285)%Z ->
  in_byte r -> in_byte g -> in_byte b ->
  (16 <= eval_row [1081344; m0; m1; m2] r g b <= 235)%Z.
Proof.
  intros H0 H1 H2 HS Hr Hg Hb. unfold eval_row.
  rewrite Z.shiftr_div_pow2 by lia. change (2 ^ 16)%Z with 65536%Z.
  pose proof (mul_byte_nonneg m0 r H0 Hr).
  pose proof (mul_byte_nonneg m1 g H1 Hg).
  pose proof (mul_byte_nonneg m2 b H2 Hb).
  Z.div_mod_to_equations. lia.
Qed.

Lemma chroma_row_range (c0 c1 r g b : Z) :
  (c0 <= 0)%Z -> (c1 <= 0)%Z -> (-1 <= c0 + c1 + 28784 <= 1)%Z ->
  in_byte r -> in_byte g -> in_byte b ->
  (16 <= eval_row [8421376; c0; c1; 28784] r g b <= 240)%Z.
Proof.
  intros H0 H1 HS Hr Hg Hb. unfold eval_row.
  rewrite Z.shiftr_div_pow2 by lia. change (2 ^ 16)%Z with 65536%Z.
  pose proof (mul_byte_nonpos c0 r H0 Hr).
  pose proof (mul_byte_nonpos c1 g H1 Hg).
  unfold in_byte in Hb.
  Z.div_mod_to_equations. lia.
Qed.



Lemma shiftr16_mono (x y : Z) : (x <= y)%Z -> (Z.shiftr x 16 <= Z.shiftr y 16)%Z.
Proof.
  intros H. rewrite !Z.shiftr_div_pow2 by lia.
  apply Z.div_le_mono; [reflexivity | exact H].
Qed.

(** X6.  Monotonicity.  For every valid weight pair the printed luma
    formula never decreases when a channel increases, the Cb formula never
    decreases when b increases or r, g decrease, and the Cr formula never
    decreases when r increases or g, b decrease (on all integers, not only
    on bytes). *)
Theorem X6_forward_monotone (kb kr : Q) :
  valid kb kr ->
  exists M N,
    printed_tables kb kr = inr (M, N) /\
    forall r g b r' g' b' y cb cr y' cb' cr',
      rgb_to_ycbcr M (r, g, b) = (y, cb, cr) ->
      rgb_to_ycbcr M (r', g', b') = (y', cb', cr') ->
      ((r <= r' -> g <= g' -> b <= b' -> y <= y') /\
       (r' <= r -> g' <= g -> b <= b' -> cb <= cb') /\
       (r <= r' -> g' <= g -> b' <= b -> cr <= cr'))%Z.
Proof.
  intros Hv.
  destruct (tables_facts kb kr (valid_regular kb kr Hv))
    as (m0 & m1 & m2 & c10 & c11 & c21 & c22 & n02 & n11 & n12 & n21
        & HT & _ & _ & _ & _ & Hsign).
  destruct (Hsign Hv) as (P0 & P1 & P2 & N10 & N11 & N21 & N22).
  do 2 eexists. split; [exact HT |].
  intros r g b r' g' b' y cb cr y' cb' cr' E E'.
  unfold rgb_to_ycbcr, eval_rows, eval_row in E, E'. cbn [nth] in E, E'.
  apply pair_equal_spec in E. destruct E as [E Ecr].
  apply pair_equal_spec in E. destruct E as [Ey Ecb].
  apply pair_equal_spec in E'. destruct E' as [E' Ecr'].
  apply pair_equal_spec in E'. destruct E' as [Ey' Ecb'].
  subst y cb cr y' cb' cr'.
  split; [| split]; intros H1 H2 H3; apply shiftr16_mono.
  - pose proof (Z.mul_le_mono_nonneg_l r r' m0 P0 H1).
    pose proof (Z.mul_le_mono_nonneg_l g g' m1 P1 H2).
    pose proof (Z.mul_le_mono_nonneg_l b b' m2 P2 H3). lia.
  - pose proof (Z.mul_le_mono_nonpos_l r' r c10 N10 H1).
    pose proof (Z.mul_le_mono_nonpos_l g' g c11 N11 H2). lia.
  - pose proof (Z.mul_le_mono_nonpos_l g' g c21 N21 H2).
    pose proof (Z.mul_le_mono_nonpos_l b' b c22 N22 H3). lia.
Qed.

Lemma X6_forward_monotone_witness :
  valid bt709_kb bt709_kr /\
  exists M N,
    printed_tables bt709_kb bt709_kr = inr (M, N) /\
    forall r g b r' g' b' y cb cr y' cb' cr',
      rgb_to_ycbcr M (r, g, b) = (y, cb, cr) ->
      rgb_to_ycbcr M (r', g', b') = (y', cb', cr') ->
      ((r <= r' -> g <= g' -> b <= b' -> y <= y') /\
       (r' <= r -> g' <= g -> b <= b' -> cb <= cb') /\
       (r <= r' -> g' <= g -> b' <= b -> cr <= cr'))%Z.
Proof.
  split; [exact valid_bt709 | exact (X6_forward_monotone _ _ valid_bt709)].
Defined.

(** ** Exchanging the two weights *)



(** ** Reading the printed text back *)

Lemma all_digits_num_chars (s : string) :
  all_digits s = true -> all_num_chars s = true.
Proof.
  induction s as [| c s IH]; cbn [all_digits all_num_chars]; [reflexivity |].
  intros H. apply andb_true_iff in H. destruct H as [Hc Hs].
  unfold is_num_char. rewrite Hc, (IH Hs). reflexivity.
Qed.

Lemma str_of_int_num_chars (z : Z) : all_num_chars (str_of_int z) = true.
Proof.
  unfold str_of_int.
  assert (Hu : forall d, all_num_chars (NilZero.string_of_uint d) = true).
  { intros d. apply all_digits_num_chars.
    destruct d; try apply all_digits_string_of_uint. reflexivity. }
  destruct (Z.to_int z) as [d | d]; cbn [NilZero.string_of_int].
  - apply Hu.
  - cbn [all_num_chars]. now rewrite Hu.
Qed.

(** A run of number characters followed by another character is read off
    a string in one way only. *)
Lemma split_number (s1 s2 t1 t2 : string) (c1 c2 : ascii) :
  all_num_chars s1 = true -> all_num_chars s2 = true ->
  is_num_char c1 = false -> is_num_char c2 = false ->
  (s1 ++ String c1 t1 = s2 ++ String c2 t2)%string ->
  s1 = s2 /\ String c1 t1 = String c2 t2.
Proof.
  revert s2. induction s1 as [| a s1 IH]; intros [| b s2] H1 H2 Hc1 Hc2 E;
    cbn [append all_num_chars] in *.
  - auto.
  - exfalso. injection E as -> _.
    apply andb_true_iff in H2. destruct H2 as [Hb _]. congruence.
  - exfalso. injection E as -> _.
    apply andb_true_iff in H1. destruct H1 as [Ha _]. congruence.
  - injection E as -> E.
    apply andb_true_iff in H1. destruct H1 as [_ H1].
    apply andb_true_iff in H2. destruct H2 as [_ H2].
    destruct (IH s2 H1 H2 Hc1 Hc2 E) as [-> E']. auto.
Qed.

Lemma str_of_int_inj (a b : Z) : str_of_int a = str_of_int b -> a = b.
Proof.
  intros E. pose proof (str_of_int_read_back a) as Ha.
  rewrite E, str_of_int_read_back in Ha. now injection Ha.
Qed.

Lemma number_then_sep (c : ascii) (a b : Z) (t t' : string) :
  is_num_char c = false ->
  (str_of_int a ++ String c t = str_of_int b ++ String c t')%string ->
  a = b /\ t = t'.
Proof.
  intros Hc E.
  destruct (split_number _ _ _ _ _ _ (str_of_int_num_chars a)
              (str_of_int_num_chars b) Hc Hc E) as [E1 E2].
  split; [now apply str_of_int_inj | now injection E2].
Qed.

Lemma string_tail_eq (c : ascii) (s s' : string) : String c s = String c s' -> s = s'.
Proof. intros E. now injection E. Qed.

(** The layout is read back in one way only: two pairs of 3x4 tables with
    the same text are the same tables. *)
Lemma spec_output_inj
  (b0 m00 m01 m02 b1 m10 m11 m12 b2 m20 m21 m22 : Z)
  (e0 n00 n01 n02 e1 n10 n11 n12 e2 n20 n21 n22 : Z)
  (b0' m00' m01' m02' b1' m10' m11' m12' b2' m20' m21' m22' : Z)
  (e0' n00' n01' n02' e1' n10' n11' n12' e2' n20' n21' n22' : Z) :
  spec_output [[b0; m00; m01; m02]; [b1; m10; m11; m12]; [b2; m20; m21; m22]]
              [[e0; n00; n01; n02]; [e1; n10; n11; n12]; [e2; n20; n21; n22]]
  = spec_output [[b0'; m00'; m01'; m02']; [b1'; m10'; m11'; m12']; [b2'; m20'; m21'; m22']]
                [[e0'; n00'; n01'; n02']; [e1'; n10'; n11'; n12']; [e2'; n20'; n21'; n22']] ->
  [[b0; m00; m01; m02]; [b1; m10; m11; m12]; [b2; m20; m21; m22]]
  = [[b0'; m00'; m01'; m02']; [b1'; m10'; m11'; m12']; [b2'; m20'; m21'; m22']] /\
  [[e0; n00; n01; n02]; [e1; n10; n11; n12]; [e2; n20; n21; n22]]
  = [[e0'; n00'; n01'; n02']; [e1'; n10'; n11'; n12']; [e2'; n20'; n21'; n22']].
Proof.
  intros H.
  unfold spec_output, spec_lines, expr_line, newline in H.
  cbn [map app fold_right] in H.
  rewrite !append_assoc in H. cbn [append] in H.
  repeat first
    [ apply string_tail_eq in H
    | apply number_then_sep in H;
      [ let E := fresh "E" in destruct H as [E H]; subst | reflexivity ] ].
  split; reflexivity.
Qed.

(** X10.  The printed text determines the coefficients: two runs that end
    normally and print the same text derived the same two integer tables
    (no two different tables are ever rendered alike). *)
Theorem X10_text_determines_tables (kb kr kb' kr' : Q) :
  regular kb kr -> regular kb' kr' ->
  fst (run kb kr) = fst (run kb' kr') ->
  printed_tables kb kr = printed_tables kb' kr'.
Proof.
  intros Hreg Hreg' Htext.
  destruct (run_regular kb kr Hreg) as (B & _ & HB & _ & HT & Hrun).
  destruct (run_regular kb' kr' Hreg') as (B' & _ & HB' & _ & HT' & Hrun').
  rewrite Hrun, Hrun' in Htext. cbn [fst] in Htext.
  rewrite HT, HT'.
  destruct (inv_shape _ _ HB) as (a & b & c & d & e & f & g & h & i & ->).
  destruct (inv_shape _ _ HB') as (a' & b' & c' & d' & e' & f' & g' & h' & i' & ->).
  unfold fwd_ints, inv_ints, A_code, table_of, scaled_ints in *. cbn [map] in *.
  apply spec_output_inj in Htext. destruct Htext as [EM EN].
  now rewrite EM, EN.
Qed.

Lemma X10_text_determines_tables_witness :
  printed_tables bt601_kb bt601_kr = printed_tables (57 # 500) (299 # 1000).
Proof.
  apply X10_text_determines_tables.
  - exact regular_bt601.
  - unfold regular. repeat split; discriminate.
  - vm_compute. reflexivity.
Defined.

(** ** The inverse formulas are monotone *)

Lemma mat_eq_rows3 (r0 r1 r2 s0 s1 s2 : list Q) :
  mat_eq [r0; r1; r2] [s0; s1; s2] ->
  Forall2 Qeq r0 s0 /\ Forall2 Qeq r1 s1 /\ Forall2 Qeq r2 s2.
Proof.
  unfold mat_eq. intros H.
  inversion H as [| ? ? ? ? H0 H']; subst.
  inversion H' as [| ? ? ? ? H1 H'']; subst.
  inversion H'' as [| ? ? ? ? H2 _]; subst. auto.
Qed.

Lemma row_eq3 (a b c a' b' c' : Q) :
  Forall2 Qeq [a; b; c] [a'; b'; c'] -> a == a' /\ b == b' /\ c == c'.
Proof.
  intros H.
  inversion H as [| ? ? ? ? Ha H']; subst.
  inversion H' as [| ? ? ? ? Hb H'']; subst.
  inversion H'' as [| ? ? ? ? Hc _]; subst. auto.
Qed.

Lemma inv_row0_gain_nonneg : 0 <= inv_row0_gain.
Proof. vm_compute. discriminate. Qed.

Lemma inv_rows12_gain_nonneg : 0 <= inv_rows12_gain.
Proof. vm_compute. discriminate. Qed.

(** Signs of the weight-dependent inverse coefficients, for valid weights. *)
Lemma inverse_table_signs (kb kr : Q) (a b c d e f g h i : Q) :
  valid kb kr ->
  mat_eq [[a; b; c]; [d; e; f]; [g; h; i]] (B_closed kb kr) ->
  (0 <= round_half_even (c * inv_row0_gain) /\
   round_half_even (e * inv_rows12_gain) <= 0 /\
   round_half_even (f * inv_rows12_gain) <= 0 /\
   0 <= round_half_even (h * inv_rows12_gain))%Z.
Proof.
  intros (Hkb & Hkr & Hs) HB. unfold B_closed in HB.
  destruct (mat_eq_rows3 _ _ _ _ _ _ HB) as (H0 & H1 & H2).
  destruct (row_eq3 _ _ _ _ _ _ H0) as (_ & _ & Hc).
  destruct (row_eq3 _ _ _ _ _ _ H1) as (_ & He & Hf).
  destruct (row_eq3 _ _ _ _ _ _ H2) as (_ & Hh & _).
  assert (Hg : 0 < 1 - kr - kb) by lra.
  assert (Pc : 0 <= c) by lra.
  assert (Ph : 0 <= h) by lra.
  assert (Ne : e <= 0).
  { rewrite He. apply Qdiv_nonpos_pos; [nra | exact Hg]. }
  assert (Nf : f <= 0).
  { rewrite Hf. apply Qdiv_nonpos_pos; [nra | exact Hg]. }
  repeat split.
  - apply round_half_even_nonneg, Qmult_le_0_compat;
      [exact Pc | exact inv_row0_gain_nonneg].
  - apply round_half_even_nonpos, Qmult_nonpos_nonneg;
      [exact Ne | exact inv_rows12_gain_nonneg].
  - apply round_half_even_nonpos, Qmult_nonpos_nonneg;
      [exact Nf | exact inv_rows12_gain_nonneg].
  - apply round_half_even_nonneg, Qmult_le_0_compat;
      [exact Ph | exact inv_rows12_gain_nonneg].
Qed.

Lemma inverse_fixed_entries (kb kr : Q) (a b c d e f g h i : Q) :
  mat_eq [[a; b; c]; [d; e; f]; [g; h; i]] (B_closed kb kr) ->
  round_half_even (a * inv_row0_gain) = 76309%Z /\
  round_half_even (b * inv_row0_gain) = 0%Z /\
  round_half_even (d * inv_rows12_gain) = 74606%Z /\
  round_half_even (g * inv_rows12_gain) = 74606%Z /\
  round_half_even (i * inv_rows12_gain) = 0%Z.
Proof.
  intros HB. unfold B_closed in HB.
  destruct (mat_eq_rows3 _ _ _ _ _ _ HB) as (H0 & H1 & H2).
  destruct (row_eq3 _ _ _ _ _ _ H0) as (Ha & Hb & _).
  destruct (row_eq3 _ _ _ _ _ _ H1) as (Hd & _ & _).
  destruct (row_eq3 _ _ _ _ _ _ H2) as (Hg & _ & Hi).
  repeat split.
  - rewrite <- round_inv_row0_gain. apply round_half_even_comp.
    now apply mul_one_comp.
  - rewrite <- round_zero. apply round_half_even_comp. now apply mul_zero_comp.
  - rewrite <- round_inv_rows12_gain. apply round_half_even_comp.
    now apply mul_one_comp.
  - rewrite <- round_inv_rows12_gain. apply round_half_even_comp.
    now apply mul_one_comp.
  - rewrite <- round_zero. apply round_half_even_comp. now apply mul_zero_comp.
Qed.

(** X14.  For every valid weight pair the printed inverse formulas are
    monotone: red never decreases when y or cr increases and does not
    depend on cb; green never decreases when y increases or cb, cr
    decrease; blue never decreases when y or cb increases and does not
    depend on cr. *)
Theorem X14_inverse_monotone (kb kr : Q) :
  valid kb kr ->
  exists M N,
    printed_tables kb kr = inr (M, N) /\
    forall y cb cr y' cb' cr' r g b r2 g2 b2,
      ycbcr_to_rgb N (y, cb, cr) = (r, g, b) ->
      ycbcr_to_rgb N (y', cb', cr') = (r2, g2, b2) ->
      ((y <= y' -> cr <= cr' -> r <= r2) /\
       (y <= y' -> cb' <= cb -> cr' <= cr -> g <= g2) /\
       (y <= y' -> cb <= cb' -> b <= b2))%Z.
Proof.
  intros Hv.
  pose proof (valid_regular kb kr Hv) as Hreg.
  destruct (run_regular kb kr Hreg) as (B & _ & HB & HBc & HT & _).
  destruct (inv_shape _ _ HB) as (a & b0 & c & d & e & f & g0 & h & i & ->).
  destruct (inverse_table_signs kb kr _ _ _ _ _ _ _ _ _ Hv HBc) as (Pc & Ne & Nf & Ph).
  destruct (inverse_fixed_entries kb kr _ _ _ _ _ _ _ _ _ HBc)
    as (Ea & Eb & Ed & Eg & Ei).
  unfold inv_ints, table_of, scaled_ints in HT. cbn [map] in HT.
  rewrite Ea, Eb, Ed, Eg, Ei in HT.
  remember (round_half_even (c * inv_row0_gain)) as n02 eqn:E02.
  remember (round_half_even (e * inv_rows12_gain)) as n11 eqn:E11.
  remember (round_half_even (f * inv_rows12_gain)) as n12 eqn:E12.
  remember (round_half_even (h * inv_rows12_gain)) as n21 eqn:E21.
  clear E02 E11 E12 E21.
  do 2 eexists. split; [exact HT |].
  intros y cb cr y' cb' cr' r g b r2 g2 b2 E E'.
  unfold ycbcr_to_rgb, eval_rows, eval_row in E, E'. cbn [nth] in E, E'.
  apply pair_equal_spec in E. destruct E as [E Eb3].
  apply pair_equal_spec in E. destruct E as [Er Eg3].
  apply pair_equal_spec in E'. destruct E' as [E' Eb3'].
  apply pair_equal_spec in E'. destruct E' as [Er' Eg3'].
  subst r g b r2 g2 b2.
  split; [| split].
  - intros H1 H2. apply shiftr16_mono.
    assert (Hcr : (cr - 128 <= cr' - 128)%Z) by lia.
    pose proof (Z.mul_le_mono_nonneg_l _ _ n02 Pc Hcr).
    lia.
  - intros H1 H2 H3. apply shiftr16_mono.
    assert (Hcb : (cb' - 128 <= cb - 128)%Z) by lia.
    assert (Hcr : (cr' - 128 <= cr - 128)%Z) by lia.
    pose proof (Z.mul_le_mono_nonpos_l _ _ n11 Ne Hcb).
    pose proof (Z.mul_le_mono_nonpos_l _ _ n12 Nf Hcr).
    lia.
  - intros H1 H2. apply shiftr16_mono.
    assert (Hcb : (cb - 128 <= cb' - 128)%Z) by lia.
    pose proof (Z.mul_le_mono_nonneg_l _ _ n21 Ph Hcb).
    lia.
Qed.

Lemma X14_inverse_monotone_witness :
  valid bt709_kb bt709_kr /\
  exists M N,
    printed_tables bt709_kb bt709_kr = inr (M, N) /\
    forall y cb cr y' cb' cr' r g b r2 g2 b2,
      ycbcr_to_rgb N (y, cb, cr) = (r, g, b) ->
      ycbcr_to_rgb N (y', cb', cr') = (r2, g2, b2) ->
      ((y <= y' -> cr <= cr' -> r <= r2) /\
       (y <= y' -> cb' <= cb -> cr' <= cr -> g <= g2) /\
       (y <= y' -> cb <= cb' -> b <= b2))%Z.
Proof.
  split; [exact valid_bt709 | exact (X14_inverse_monotone _ _ valid_bt709)].
Defined.
